(** * keep-exporter: the local/remote reconciliation engine of export.py

    A shallow embedding of [src/keep_exporter/export.py]: the local index
    builder ([index_existing_files]), the unique path allocator
    ([build_note_unique_path]), the rename reconciler ([try_rename_note]),
    the orphan detector ([delete_local_only_files]), the media downloader
    ([download_media]) and the per-note loop of [main].

    The file system is a finite map from paths to files, every [click.echo]
    and every file operation is recorded in a trace, and Python exceptions
    are an explicit result.  External libraries (pathvalidate, mimetypes,
    strftime, mdutils) and the operating system's refusals are collected in
    one environment record. *)

From stdpp Require Import gmap strings list sets pretty.
From Stdlib Require Import ZArith Ascii.

Local Open Scope Z_scope.
Local Open Scope nat_scope.

(** ** Python string primitives *)

Module Str.

(** [s.endswith(suf)] *)
Fixpoint endswith (s suf : string) : bool :=
  if bool_decide (s = suf) then true
  else match s with
       | EmptyString => false
       | String _ s' => endswith s' suf
       end.

(** [s.split(c)] for a one-character separator: never the empty list. *)
Fixpoint split (c : ascii) (s : string) : list string :=
  match s with
  | EmptyString => [EmptyString]
  | String x s' =>
      if bool_decide (x = c) then EmptyString :: split c s'
      else match split c s' with
           | h :: t => String x h :: t
           | [] => [String x EmptyString]
           end
  end.

(** [sep.join(l)] *)
Fixpoint join (sep : string) (l : list string) : string :=
  match l with
  | [] => EmptyString
  | [s] => s
  | s :: l' => s +:+ sep +:+ join sep l'
  end.

(** number of occurrences of the character [c] *)
Fixpoint count (c : ascii) (s : string) : nat :=
  match s with
  | EmptyString => 0
  | String x s' => (if bool_decide (x = c) then 1 else 0) + count c s'
  end.

(** ASCII white space as [str.strip] removes it. *)
Definition is_space (x : ascii) : bool :=
  let n := nat_of_ascii x in
  bool_decide (n = 32 ∨ (9 ≤ n ∧ n ≤ 13) ∨ (28 ≤ n ∧ n ≤ 31)).

Fixpoint lstrip (s : string) : string :=
  match s with
  | EmptyString => EmptyString
  | String x s' => if is_space x then lstrip s' else s
  end.

(** [s.strip()] *)
Definition strip (s : string) : string :=
  String.rev (lstrip (String.rev (lstrip s))).

(** truthiness of an optional string: [None] and [""] are falsy *)
Definition truthy (o : option string) : option string :=
  match o with
  | Some EmptyString => None
  | _ => o
  end.

End Str.

Definition dot : ascii := "."%char.

(** ** Paths (pathlib) *)

(** A path is the list of its components below the file system root. *)
Definition Path := list string.

(** [p / name] *)
Definition joinpath (p : Path) (name : string) : Path := p ++ [name].

(** [p.name]: the last component, [""] for the root *)
Definition name (p : Path) : string := List.last p EmptyString.

(** [p.parent] *)
Definition parent (p : Path) : Path := removelast p.

(** [p] lies strictly below [root] *)
Definition below (root p : Path) : Prop := root `prefix_of` p ∧ p ≠ root.

(** ** Files and the file system *)

Inductive exn :=
| OSError        (* IOError and its subclasses: FileNotFoundError, PermissionError, ... *)
| TypeError      (* datetime.fromtimestamp(None) *)
| KeyError
| ParseError     (* a YAML error raised by frontmatter.load *)
| RequestError   (* the media request failed *)
| LoopBound.     (* bound of the dedupe loop exceeded; never raised, see [build_note_unique_path_total] *)

(** The metadata dictionary of a note file, by the fields the program reads
    back: [google_keep_id] and [timestamps.updated]. *)
Record metadata := Metadata {
  md_google_keep_id : option string;
  md_updated : option Z
}.

(** What a regular file holds: a document with a frontmatter header, as
    [frontmatter.dump] writes it; bytes without a header (markdown written
    with [--no-header], media data, anything else); or a document whose
    header [frontmatter.load] cannot parse. *)
Inductive content :=
| Frontmatter (m : metadata) (body : string)
| Plain (data : string)
| Malformed (data : string).

Inductive fsnode :=
| Directory
| Regular (readable : bool) (c : content).

Inductive message :=
| SameIdInMultipleFiles (google_keep_id : string) (file other : Path)
| UnableToOpen
| IndexedLocalFiles (keep_notes unknown_notes media errors : nat)
| Renaming (src dst : Path)
| UnableToRename
| WillNotBeRenamed (id : string) (target : Path)
| NotesExistLocallyAddArgument (n : nat)
| NotesExistLocallyTrashing (n : nat)
| DeletingUnknownLocalNote (id : string) (p : Path)
| MediaExistLocallyAddArgument (n : nat)
| DeletingMedia (media_id note_id : string) (p : Path)
| DownloadingNewNote (id : string)
| UpdatingExistingFile (id : string)
| MediaExistsSkipping (p : Path)
| DownloadingMedia (media_id note_id : string)
| NotesDirectory (p : Path)
| MediaDirectory (p : Path)
| NotesDirectoryCreating
| MediaDirectoryCreating
| IndexingLocalFiles
| IndexingRemoteNotes
| FinishedSyncing
| NotesSummary (skipped updated new deleted : nat)
| MediaSummary (downloaded deleted : nat).

(** ** The local index

    [local_index], the one dictionary [main] obtains from the scan and hands
    by reference to every later call, is part of the world, so that what a
    call does to it can be stated. *)

Record LocalMedia := {
  media_path : Path;                 (* the field [path] of LocalMedia *)
  google_keep_note_id : string;
  google_keep_media_id : string
}.

Record LocalNote := {
  google_keep_id : string;
  path : option Path;
  timestamp_updated : option Z;
  local_media : gmap string LocalMedia
}.

(** What a run does to the outside world. *)
Inductive event :=
| Echo (m : message)
| Unlink (p : Path)
| Rename (src dst : Path)
| WriteFile (p : Path)
| FetchMedia (note_id media_id : string)
| Mkdir (p : Path).

Record world := World {
  fs : gmap Path fsnode;
  trace : list event;
  local_index : gmap string LocalNote
}.

Definition exists_ (w : world) (p : Path) : bool := bool_decide (is_Some (fs w !! p)).

Definition is_file (f : fsnode) : bool :=
  match f with Regular _ _ => true | Directory => false end.

(** ** A state and exception monad over the world *)

Inductive result (A : Type) :=
| Ok (a : A)
| Raise (e : exn).
Arguments Ok {A} a.
Arguments Raise {A} e.

Definition M (A : Type) : Type := world → result A * world.

Definition ret {A} (a : A) : M A := λ w, (Ok a, w).
Definition raise {A} (e : exn) : M A := λ w, (Raise e, w).
Definition bind {A B} (k : A → M B) (m : M A) : M B :=
  λ w, match m w with
       | (Ok a, w') => k a w'
       | (Raise e, w') => (Raise e, w')
       end.
(** [try: m except Exception: h] *)
Definition try_except {A} (m : M A) (h : exn → M A) : M A :=
  λ w, match m w with
       | (Ok a, w') => (Ok a, w')
       | (Raise e, w') => h e w'
       end.

#[export] Instance M_ret : MRet M := @ret.
#[export] Instance M_bind : MBind M := @bind.

Definition get_world : M world := λ w, (Ok w, w).
Definition emit (e : event) : M unit :=
  λ w, (Ok tt, World (fs w) (trace w ++ [e]) (local_index w)).
Definition set_fs (f : gmap Path fsnode) : M unit :=
  λ w, (Ok tt, World f (trace w) (local_index w)).
Definition set_local_index (index : gmap string LocalNote) : M unit :=
  λ w, (Ok tt, World (fs w) (trace w) index).
Definition echo (m : message) : M unit := emit (Echo m).

(** [for x in l: body x acc] *)
Fixpoint for_each {A S} (l : list A) (body : A → S → M S) (acc : S) : M S :=
  match l with
  | [] => ret acc
  | x :: l' => acc' ← body x acc; for_each l' body acc'
  end.

(** ** The remote collection (gkeepapi) *)

Record Media := {
  media_id : string;                  (* media.id *)
  meta_type : string;                 (* meta["type"] of media.blob.save() *)
  meta_mimetype : option string;      (* meta["mimetype"] *)
  snapshot_mimetype : option string;  (* meta["drawingInfo"]["snapshotData"]["mimetype"] *)
  byte_size : option nat;             (* media.blob.byte_size, when the blob has one *)
  media_content : string              (* the bytes the media API serves *)
}.

Record Note := {
  note_id : string;
  note_title : string;
  note_created : Z;                   (* note.timestamps.created *)
  note_updated : Z;                   (* note.timestamps.updated *)
  note_images : list Media;
  note_drawings : list Media;
  note_audio : list Media
}.

Definition all_note_media (note : Note) : list Media :=
  note_images note ++ note_drawings note ++ note_audio note.

(** [dict([(note.id, note) for note in keep.all()])]: a key keeps the place of
    its first insertion and the value of its last. *)
Fixpoint dict_set (k : string) (v : Note) (d : list (string * Note)) : list (string * Note) :=
  match d with
  | [] => [(k, v)]
  | (k', v') :: d' => if bool_decide (k' = k) then (k, v) :: d' else (k', v') :: dict_set k v d'
  end.

Definition dict_of_notes (notes : list Note) : list (string * Note) :=
  foldl (λ d note, dict_set (note_id note) note d) [] notes.

(** ** The environment: libraries and the operating system *)

Record Env := {
  sanitize_filename : string → string;       (* pathvalidate.sanitize_filename(_, max_len=135) *)
  strftime : string → Z → string;            (* created.strftime(date_format) *)
  guess_extension : string → option string;  (* mimetypes.guess_extension *)
  build_markdown : Note → list Path → string; (* the document mdutils renders *)
  rglob : Path → gmap Path fsnode → list Path; (* directory.rglob("*"), in traversal order *)
  st_size : fsnode → nat;                      (* stat().st_size *)
  rename_denied : Path → Path → bool;
  unlink_denied : Path → bool;
  write_denied : Path → bool;
  mkdir_denied : Path → bool;
  fetch_fails : string → string → bool       (* the media request for (note id, media id) fails *)
}.

(** [rglob] lists, without repetition, exactly the entries below the directory. *)
Definition rglob_ok (E : Env) : Prop :=
  ∀ root (m : gmap Path fsnode),
    NoDup (rglob E root m) ∧ ∀ p, p ∈ rglob E root m ↔ is_Some (m !! p) ∧ below root p.

Section Program.
Variable E : Env.

(** *** File operations *)

(** [p.unlink()] *)
Definition unlink (p : Path) : M unit :=
  w ← get_world;
  if unlink_denied E p then raise OSError
  else match fs w !! p with
       | Some (Regular _ _) => set_fs (delete p (fs w));; emit (Unlink p)
       | _ => raise OSError
       end.

(** [src.rename(dst)] *)
Definition rename (src dst : Path) : M unit :=
  w ← get_world;
  if rename_denied E src dst then raise OSError
  else match fs w !! src, fs w !! dst with
       | None, _ => raise OSError
       | _, Some Directory => raise OSError
       | Some f, _ => set_fs (<[dst := f]> (delete src (fs w)));; emit (Rename src dst)
       end.

(** [with p.open("wb") as f: f.write(c)] *)
Definition write_file (p : Path) (c : content) : M unit :=
  w ← get_world;
  if write_denied E p then raise OSError
  else match fs w !! p with
       | Some Directory => raise OSError
       | Some (Regular r _) => set_fs (<[p := Regular r c]> (fs w));; emit (WriteFile p)
       | None => set_fs (<[p := Regular true c]> (fs w));; emit (WriteFile p)
       end.

(** [p.mkdir(exist_ok=True)] *)
Definition mkdir_exist_ok (p : Path) : M unit :=
  w ← get_world;
  match fs w !! p with
  | Some Directory => mret tt
  | Some (Regular _ _) => raise OSError
  | None => if mkdir_denied E p then raise OSError
            else set_fs (<[p := Directory]> (fs w));; emit (Mkdir p)
  end.

(** [frontmatter.load] on an opened file, [fm.metadata] *)
Definition frontmatter_load (f : fsnode) : result metadata :=
  match f with
  | Directory => Raise OSError
  | Regular false _ => Raise OSError
  | Regular true (Frontmatter m _) => Ok m
  | Regular true (Plain _) => Ok (Metadata None None)
  | Regular true (Malformed _) => Raise ParseError
  end.

(** *** download_media *)

Definition extension (media : Media) : option string :=
  if bool_decide (meta_type media = "DRAWING") then
    guess_extension E (default "image/png" (snapshot_mimetype media))
  else if bool_decide (meta_type media = "IMAGE") then
    let extension := guess_extension E (default "image/jpeg" (meta_mimetype media)) in
    if bool_decide (extension = Some ".jpe") then Some ".jpg" else extension
  else guess_extension E (default "audio/3gpp" (meta_mimetype media)).

(** [f"{x}"] of an optional string *)
Definition format_opt (o : option string) : string := default "None" o.

Definition media_file_name (media : Media) : string :=
  sanitize_filename E (media_id media) +:+ format_opt (extension media).

Definition download_one (note : Note) (mediapath : Path) (skip_existing : bool)
    (media : Media) (acc : list Path * nat) : M (list Path * nat) :=
  let '(ret, downloaded_media) := acc in
  let note_media_path := joinpath mediapath (note_id note) in
  mkdir_exist_ok note_media_path;;
  let media_file := joinpath note_media_path (media_file_name media) in
  w ← get_world;
  let same_size :=
    match fs w !! media_file, byte_size media with
    | Some f, Some n => bool_decide (st_size E f = n)
    | _, _ => false
    end in
  downloaded_media' ←
    (if skip_existing && same_size then
       echo (MediaExistsSkipping media_file);; mret downloaded_media
     else
       echo (DownloadingMedia (media_id media) (note_id note));;
       (if fetch_fails E (note_id note) (media_id media) then raise RequestError
        else emit (FetchMedia (note_id note) (media_id media)));;
       write_file media_file (Plain (media_content media));;
       mret (downloaded_media + 1));
  mret (ret ++ [media_file], downloaded_media').

Definition download_media (note : Note) (mediapath : Path) (skip_existing : bool)
    : M (list Path * nat) :=
  for_each (all_note_media note) (download_one note mediapath skip_existing) ([], 0).

(** *** build_frontmatter, and the document written for a note *)

Definition build_frontmatter (note : Note) (markdown : string) : content :=
  Frontmatter (Metadata (Some (note_id note)) (Some (note_updated note))) markdown.

(** *** index_existing_files *)

(** [LocalNote(google_keep_id)] *)
Definition new_LocalNote (google_keep_id : string) : LocalNote :=
  {| google_keep_id := google_keep_id; path := None;
     timestamp_updated := None; local_media := ∅ |}.

(** [index.setdefault(k, LocalNote(k))] *)
Definition setdefault (k : string) (index : gmap string LocalNote) : gmap string LocalNote :=
  match index !! k with
  | Some _ => index
  | None => <[k := new_LocalNote k]> index
  end.

(** [note.timestamp_updated = updated; note.path = file] *)
Definition set_note_file (updated : Z) (file : Path) (note : LocalNote) : LocalNote :=
  {| google_keep_id := google_keep_id note; path := Some file;
     timestamp_updated := Some updated; local_media := local_media note |}.

(** [note.local_media[media_id] = m] *)
Definition set_local_media (media_id : string) (m : LocalMedia) (note : LocalNote) : LocalNote :=
  {| google_keep_id := google_keep_id note; path := path note;
     timestamp_updated := timestamp_updated note;
     local_media := <[media_id := m]> (local_media note) |}.

Record scan_state := {
  index : gmap string LocalNote;
  keep_notes : nat;
  unknown_notes : nat;
  errors : nat;
  media : nat
}.

Definition scan_init : scan_state :=
  {| index := ∅; keep_notes := 0; unknown_notes := 0; errors := 0; media := 0 |}.

(** [".".join(file.name.split(".")[0:2])] *)
Definition media_id_of_name (file_name : string) : string :=
  Str.join "." (take 2 (Str.split dot file_name)).

(** The markdown branch of the loop body, inside [try]. *)
Definition scan_markdown (st : scan_state) (file : Path) (f : fsnode)
    : list message * result scan_state :=
  match frontmatter_load f with
  | Raise e => ([], Raise e)
  | Ok metadata =>
      match Str.truthy (md_google_keep_id metadata) with
      | Some google_keep_id =>
          let warning :=
            match index st !! google_keep_id with
            | Some note =>
                match path note with
                | Some other => [SameIdInMultipleFiles google_keep_id file other]
                | None => []
                end
            | None => []
            end in
          let index1 := setdefault google_keep_id (index st) in
          match md_updated metadata with
          | None => (warning, Raise TypeError)
          | Some updated =>
              (warning,
               Ok {| index := alter (set_note_file updated file) google_keep_id index1;
                     keep_notes := keep_notes st + 1;
                     unknown_notes := unknown_notes st;
                     errors := errors st;
                     media := media st |})
          end
      | None =>
          ([], Ok {| index := index st; keep_notes := keep_notes st;
                     unknown_notes := unknown_notes st + 1;
                     errors := errors st; media := media st |})
      end
  end.

(** The media branch of the loop body. *)
Definition scan_media (st : scan_state) (file : Path) : scan_state :=
  let google_keep_id := name (parent file) in
  let media_id := media_id_of_name (name file) in
  let index1 := setdefault google_keep_id (index st) in
  {| index := alter (set_local_media media_id
                       {| media_path := file; google_keep_note_id := google_keep_id;
                          google_keep_media_id := media_id |})
                    google_keep_id index1;
     keep_notes := keep_notes st; unknown_notes := unknown_notes st;
     errors := errors st; media := media st + 1 |}.

(** One iteration of [for file in directory.rglob("*")]. *)
Definition scan_file (st : scan_state) (entry : Path * fsnode)
    : list message * result scan_state :=
  let '(file, f) := entry in
  if negb (is_file f) then ([], Ok st)
  else if Str.endswith (name file) ".md" then
    match scan_markdown st file f with
    | (ms, Raise OSError) =>
        (* except IOError as ex: errors = 0 *)
        (ms ++ [UnableToOpen],
         Ok {| index := index st; keep_notes := keep_notes st;
               unknown_notes := unknown_notes st; errors := 0; media := media st |})
    | r => r
    end
  else ([], Ok (scan_media st file)).

Fixpoint scan_files (l : list (Path * fsnode)) (st : scan_state)
    : list message * result scan_state :=
  match l with
  | [] => ([], Ok st)
  | entry :: l' =>
      match scan_file st entry with
      | (ms, Ok st') => let '(ms', r) := scan_files l' st' in (ms ++ ms', r)
      | (ms, Raise e) => (ms, Raise e)
      end
  end.

(** The entries [directory.rglob("*")] yields, each with the file it names. *)
Definition listing (directory : Path) (m : gmap Path fsnode) : list (Path * fsnode) :=
  omap (λ p, (λ f, (p, f)) <$> m !! p) (rglob E directory m).

Definition index_existing_files (directory : Path) : M unit :=
  w ← get_world;
  let '(ms, r) := scan_files (listing directory (fs w)) scan_init in
  for_each ms (λ m _, echo m) tt;;
  match r with
  | Raise e => raise e
  | Ok st =>
      echo (IndexedLocalFiles (keep_notes st) (unknown_notes st) (media st) (errors st));;
      set_local_index (index st)
  end.

(** *** try_rename_note *)

Definition try_rename_note (note : LocalNote) (target_file : Path) : M Path :=
  match path note with
  | None => mret target_file
  | Some note_path =>
      echo (Renaming note_path target_file);;
      try_except
        (rename note_path target_file;; mret target_file)
        (λ ex, echo UnableToRename;; mret note_path)
  end.

(** *** build_note_unique_path *)

(** [sanitize_filename(f"{date_str} - " + title, max_len=135)] *)
Definition note_stem (note : Note) (date_format : string) : string :=
  let title := Str.strip (note_title note) in
  let title := if bool_decide (String.length title = 0) then "untitled" else title in
  let date_str := strftime E date_format (note_created note) in
  sanitize_filename E ((date_str +:+ " - ") +:+ title).

(** [f"{stem}.{note.id}.{dedupe_index}.md"] *)
Definition dedupe_filename (stem : string) (note : Note) (dedupe_index : nat) : string :=
  stem +:+ "." +:+ note_id note +:+ "." +:+ pretty dedupe_index +:+ ".md".

(** [while target_path.exists(): target_path = candidate(dedupe_index); dedupe_index += 1],
    unrolled at most [fuel] times. *)
Fixpoint dedupe_loop (fuel : nat) (m : gmap Path fsnode) (candidate : nat → Path)
    (target_path : Path) (dedupe_index : nat) : option Path :=
  if bool_decide (is_Some (m !! target_path)) then
    match fuel with
    | 0 => None
    | S fuel' => dedupe_loop fuel' m candidate (candidate dedupe_index) (S dedupe_index)
    end
  else Some target_path.

Definition dedupe (notepath : Path) (note : Note) (date_format : string)
    (target_path : Path) : M Path :=
  w ← get_world;
  let candidate i := joinpath notepath (dedupe_filename (note_stem note date_format) note i) in
  match dedupe_loop (S (size (fs w))) (fs w) candidate target_path 1 with
  | Some target_path' => mret target_path'
  | None => raise LoopBound
  end.

Definition build_note_unique_path (notepath : Path) (note : Note) (date_format : string)
    : M Path :=
  let filename := note_stem note date_format +:+ ".md" in
  let target_path := joinpath notepath filename in
  w ← get_world;
  let local_note := local_index w !! note_id note in
  let local_path := local_note ≫= path in
  match local_path with
  | Some local_path =>
      if bool_decide (local_path = target_path) then mret local_path
      else if exists_ w target_path then
        echo (WillNotBeRenamed (note_id note) target_path);; mret local_path
      else dedupe notepath note date_format target_path
  | None => dedupe notepath note date_format target_path
  end.

(** *** delete_local_only_files *)

Definition local_only_note_ids (local_index : gmap string LocalNote)
    (keep_notes : list (string * Note)) : gset string :=
  dom local_index ∖ list_to_set (keep_notes.*1).

Definition local_media_pairs (local_index : gmap string LocalNote) : gset (string * string) :=
  list_to_set
    (local_note ← (map_to_list local_index).*2;
     local_media ← (map_to_list (local_media local_note)).*2;
     if bool_decide (google_keep_note_id local_media ≠ "" ∧ google_keep_media_id local_media ≠ "")
     then [(google_keep_note_id local_media, google_keep_media_id local_media)]
     else []).

Definition keep_media (keep_notes : list (string * Note)) : gset (string * string) :=
  list_to_set
    (keep_note ← keep_notes.*2;
     keep_media ← all_note_media keep_note;
     [(note_id keep_note, media_id keep_media)]).

Definition local_only_media_ids (local_index : gmap string LocalNote)
    (keep_notes : list (string * Note)) : gset (string * string) :=
  local_media_pairs local_index ∖ keep_media keep_notes.

Definition delete_note (note_id : string) (deleted_notes : nat) : M nat :=
  w ← get_world;
  match local_index w !! note_id with
  | None => raise KeyError
  | Some local_note =>
      let deleted_notes := deleted_notes + 1 in
      match path local_note with
      | Some note_path =>
          echo (DeletingUnknownLocalNote note_id note_path);;
          unlink note_path;; mret deleted_notes
      | None => mret deleted_notes
      end
  end.

Definition delete_media (ids : string * string) (deleted_media : nat) : M nat :=
  let '(note_id, media_id) := ids in
  w ← get_world;
  match local_index w !! note_id ≫= λ local_note, local_media local_note !! media_id with
  | None => raise KeyError
  | Some media =>
      echo (DeletingMedia media_id note_id (media_path media));;
      unlink (media_path media);;
      mret (deleted_media + 1)
  end.

Definition delete_local_only_files (keep_notes : list (string * Note))
    (delete_local : bool) : M (nat * nat) :=
  w ← get_world;
  let local_index := local_index w in
  let note_ids := local_only_note_ids local_index keep_notes in
  deleted_notes ←
    (if bool_decide (note_ids = ∅) then mret 0
     else if negb delete_local then
       echo (NotesExistLocallyAddArgument (size note_ids));; mret 0
     else
       echo (NotesExistLocallyTrashing (size note_ids));;
       for_each (elements note_ids) delete_note 0);
  let media_ids := local_only_media_ids local_index keep_notes in
  if bool_decide (media_ids = ∅) then mret (deleted_notes, 0)
  else if negb delete_local then
    echo (MediaExistLocallyAddArgument (size note_ids));;
    mret (deleted_notes, 0)
  else
    deleted_media ← for_each (elements media_ids) delete_media 0;
    mret (deleted_notes, deleted_media).

(** *** main *)

Record Config := {
  directory : Path;            (* the resolved output directory *)
  header : bool;
  delete_local : bool;
  rename_local : bool;
  date_format : string;
  skip_existing_media : bool
}.

Record counters := {
  skipped_notes : nat;
  updated_notes : nat;
  new_notes : nat;
  downloaded_media : nat
}.

Definition count_skipped (c : counters) : counters :=
  {| skipped_notes := skipped_notes c + 1; updated_notes := updated_notes c;
     new_notes := new_notes c; downloaded_media := downloaded_media c |}.
Definition count_updated (c : counters) : counters :=
  {| skipped_notes := skipped_notes c; updated_notes := updated_notes c + 1;
     new_notes := new_notes c; downloaded_media := downloaded_media c |}.
Definition count_new (c : counters) : counters :=
  {| skipped_notes := skipped_notes c; updated_notes := updated_notes c;
     new_notes := new_notes c + 1; downloaded_media := downloaded_media c |}.
Definition count_downloaded (downloaded : nat) (c : counters) : counters :=
  {| skipped_notes := skipped_notes c; updated_notes := updated_notes c;
     new_notes := new_notes c; downloaded_media := downloaded_media c + downloaded |}.

(** The end of the loop body: download the media, render and write the note. *)
Definition write_note (cfg : Config) (mediapath : Path) (note : Note) (target_path : Path)
    (c : counters) : M counters :=
  '(images, downloaded) ← download_media note mediapath (skip_existing_media cfg);
  let markdown := build_markdown E note images in
  write_file target_path
    (if header cfg then build_frontmatter note markdown else Plain markdown);;
  mret (count_downloaded downloaded c).

(** The body of [for note in keep_notes.values()]. *)
Definition process_note (cfg : Config) (notepath mediapath : Path)
    (note : Note) (c : counters) : M counters :=
  w ← get_world;
  let local_note := local_index w !! note_id note in
  c ← match local_note with
      | None => echo (DownloadingNewNote (note_id note));; mret (count_new c)
      | Some _ => mret c
      end;
  target_path ← build_note_unique_path notepath note (date_format cfg);
  target_path ←
    match local_note with
    | Some indexed =>
        match path indexed with
        | Some local_path =>
            if rename_local cfg && negb (bool_decide (local_path = target_path))
            then try_rename_note indexed target_path
            else mret local_path
        | None => mret target_path
        end
    | None => mret target_path
    end;
  match local_note with
  | Some local_note =>
      if bool_decide (timestamp_updated local_note = Some (note_updated note)) then
        mret (count_skipped c)
      else
        echo (UpdatingExistingFile (note_id note));;
        write_note cfg mediapath note target_path (count_updated c)
  | None => write_note cfg mediapath note target_path c
  end.

(** [p.mkdir(parents=True)] when [p] does not exist *)
Definition mkdir_parents (p : Path) : M unit :=
  for_each (seq 1 (length p)) (λ n _, mkdir_exist_ok (take n p)) tt.

Definition ensure_directory (p : Path) (creating : message) : M unit :=
  w ← get_world;
  if exists_ w p then mret tt else echo creating;; mkdir_parents p.

Record summary := {
  notes : counters;
  deleted_notes : nat;
  deleted_media : nat
}.

Definition main (cfg : Config) (keep_all : list Note) : M summary :=
  let notepath := directory cfg in
  let mediapath := joinpath notepath "media" in
  echo (NotesDirectory notepath);;
  echo (MediaDirectory mediapath);;
  ensure_directory notepath NotesDirectoryCreating;;
  ensure_directory mediapath MediaDirectoryCreating;;
  echo IndexingLocalFiles;;
  index_existing_files notepath;;
  echo IndexingRemoteNotes;;
  let keep_notes := dict_of_notes keep_all in
  '(deleted_notes, deleted_media) ←
    delete_local_only_files keep_notes (delete_local cfg);
  c ← for_each (keep_notes.*2) (process_note cfg notepath mediapath)
        {| skipped_notes := 0; updated_notes := 0; new_notes := 0; downloaded_media := 0 |};
  echo FinishedSyncing;;
  echo (NotesSummary (skipped_notes c) (updated_notes c) (new_notes c) deleted_notes);;
  echo (MediaSummary (downloaded_media c) deleted_media);;
  mret {| notes := c; deleted_notes := deleted_notes; deleted_media := deleted_media |}.

End Program.

(** ** An environment for the examples

    Sanitisation drops the characters that are invalid on every platform and
    keeps at most 135 characters; the creation date is printed as a decimal
    number; the extension table has the three default mimetypes; the
    directory is listed in the order of the finite map; the operating system
    refuses nothing. *)

Module Demo.

Definition invalid (x : ascii) : bool :=
  bool_decide (x ∈ ["/"; "\"; ":"; "*"; "?"; "<"; ">"; "|"]%char).

Fixpoint remove_invalid (s : string) : string :=
  match s with
  | EmptyString => EmptyString
  | String x s' => if invalid x then remove_invalid s' else String x (remove_invalid s')
  end.

Definition sanitize (s : string) : string :=
  String.substring 0 135 (remove_invalid s).

Definition extensions (mimetype : string) : option string :=
  if bool_decide (mimetype = "image/png") then Some ".png"
  else if bool_decide (mimetype = "image/jpeg") then Some ".jpg"
  else if bool_decide (mimetype = "audio/3gpp") then Some ".3gp"
  else None.

Definition entries_below (root : Path) (m : gmap Path fsnode) : list Path :=
  filter (below root) (map_to_list m).*1.

Definition size_of (f : fsnode) : nat :=
  match f with
  | Regular _ (Plain data) => String.length data
  | Regular _ (Frontmatter _ body) => String.length body
  | Regular _ (Malformed data) => String.length data
  | Directory => 0
  end.

Definition env : Env :=
  {| sanitize_filename := sanitize;
     strftime := λ _ created, pretty created;
     guess_extension := extensions;
     build_markdown := λ note _, note_title note;
     rglob := entries_below;
     st_size := size_of;
     rename_denied := λ _ _, false;
     unlink_denied := λ _, false;
     write_denied := λ _, false;
     mkdir_denied := λ _, false;
     fetch_fails := λ _ _, false |}.

Definition note (id title : string) (created updated : Z) : Note :=
  {| note_id := id; note_title := title; note_created := created;
     note_updated := updated; note_images := []; note_drawings := []; note_audio := [] |}.

Definition config (header delete_local rename_local : bool) : Config :=
  {| directory := ["out"]; header := header; delete_local := delete_local;
     rename_local := rename_local; date_format := "%Y-%m-%d";
     skip_existing_media := true |}.

End Demo.

(** * Specification vocabulary

    The predicates in which the claims are stated. *)

Definition canonical_path (E : Env) (notepath : Path) (note : Note) (date_format : string) : Path :=
  joinpath notepath (note_stem E note date_format +:+ ".md").

Definition candidate (E : Env) (notepath : Path) (note : Note) (date_format : string) (i : nat) : Path :=
  joinpath notepath (dedupe_filename (note_stem E note date_format) note i).

Definition is_echo (e : event) : Prop :=
  match e with Echo _ => True | _ => False end.

Definition is_echo_or_rename (e : event) : Prop :=
  match e with Echo _ | Rename _ _ => True | _ => False end.

(** The [updated] value with which a listed entry claims the identifier [k]:
    a regular file named *.md that loads and carries [k]. *)
Definition claims (k : string) (entry : Path * fsnode) : option Z :=
  if is_file entry.2 && Str.endswith (name entry.1) ".md" then
    match frontmatter_load entry.2 with
    | Ok metadata =>
        if bool_decide (Str.truthy (md_google_keep_id metadata) = Some k)
        then md_updated metadata else None
    | Raise _ => None
    end
  else None.

Definition note_files (l : list (Path * fsnode)) (k : string) : list (Path * Z) :=
  omap (λ entry, (λ updated, (entry.1, updated)) <$> claims k entry) l.

(** A regular file not named *.md whose parent directory is called [k]. *)
Definition is_media_of (k : string) (entry : Path * fsnode) : bool :=
  is_file entry.2 && negb (Str.endswith (name entry.1) ".md")
  && bool_decide (name (parent entry.1) = k).

Definition media_entries (l : list (Path * fsnode)) (k : string) : list (Path * fsnode) :=
  filter (λ entry, is_media_of k entry) l.

Definition media_files (l : list (Path * fsnode)) (k media_id : string) : list Path :=
  (filter (λ entry, media_id_of_name (name entry.1) = media_id) (media_entries l k)).*1.

Definition note_matches (l : list (Path * fsnode)) (k : string) (note : LocalNote) : Prop :=
  google_keep_id note = k ∧
  path note = fst <$> last (note_files l k) ∧
  timestamp_updated note = snd <$> last (note_files l k) ∧
  (∀ media_id,
     local_media note !! media_id
     = (λ p, {| media_path := p; google_keep_note_id := k;
                google_keep_media_id := media_id |})
       <$> last (media_files l k media_id)) ∧
  (note_files l k ≠ [] ∨ media_entries l k ≠ []).

Definition entry_matches (l : list (Path * fsnode)) (k : string)
    (o : option LocalNote) : Prop :=
  match o with
  | None => note_files l k = [] ∧ media_entries l k = []
  | Some note => note_matches l k note
  end.

Definition index_matches (l : list (Path * fsnode)) (index : gmap string LocalNote) : Prop :=
  ∀ k, entry_matches l k (index !! k).

Definition preserves_index {A} (m : M A) : Prop :=
  ∀ w, local_index (m w).2 = local_index w.

(** The files of [m'] are those of [m] up to new directories at places
    [where_] allows and regular files whose name does not end in .md. *)
Definition harmless (where_ : Path → Prop) (m m' : gmap Path fsnode) : Prop :=
  ∀ q, m' !! q = m !! q ∨
       (where_ q ∧ m !! q = None ∧ m' !! q = Some Directory) ∨
       (Str.endswith (name q) ".md" = false ∧ ∃ r c, m' !! q = Some (Regular r c)).

(** The note file at [p] below the directory claims the identifier [k] with
    the recorded value [updated]. *)
Definition claimant (dir : Path) (m : gmap Path fsnode) (k : string) (p : Path)
    (updated : Z) : Prop :=
  ∃ f, m !! p = Some f ∧ below dir p ∧ claims k (p, f) = Some updated.

(** No identifier is claimed by two note files. *)
Definition unique_claims (dir : Path) (m : gmap Path fsnode) : Prop :=
  ∀ k p1 p2 u1 u2, claimant dir m k p1 u1 → claimant dir m k p2 u2 → p1 = p2.

(** The scan does not stop at this entry: a note file either cannot be
    opened, or loads and has no identifier, or loads and has an [updated]
    value. *)
Definition scannable (entry : Path * fsnode) : Prop :=
  is_file entry.2 = true → Str.endswith (name entry.1) ".md" = true →
  match frontmatter_load entry.2 with
  | Ok metadata =>
      Str.truthy (md_google_keep_id metadata) = None ∨ is_Some (md_updated metadata)
  | Raise e => e = OSError
  end.

Definition all_scannable (dir : Path) (m : gmap Path fsnode) : Prop :=
  ∀ p f, m !! p = Some f → below dir p → scannable (p, f).

(** The index entry of [k] agrees with the files: its path is the note file
    that claims [k], with the recorded timestamp; without path, no file
    claims [k]. *)
Definition index_agrees (dir : Path) (m : gmap Path fsnode)
    (index : gmap string LocalNote) (k : string) : Prop :=
  match index !! k with
  | Some note =>
      match path note with
      | Some p => ∃ u, claimant dir m k p u ∧ timestamp_updated note = Some u
      | None => timestamp_updated note = None ∧ ∀ p u, ¬ claimant dir m k p u
      end
  | None => ∀ p u, ¬ claimant dir m k p u
  end.

(** A path the allocator makes up: free, directly in the notes directory,
    named *.md. *)
Definition fresh_note_path (dir : Path) (m : gmap Path fsnode) (target : Path) : Prop :=
  m !! target = None ∧ ∃ x, target = joinpath dir x ∧ Str.endswith x ".md" = true.

Definition target_of (dir : Path) (w : world) (note : Note) (target : Path) : Prop :=
  match local_index w !! note_id note ≫= path with
  | Some p => target = p
  | None => fresh_note_path dir (fs w) target
  end.

(** What processing one note achieves on the files. *)
Definition run_step (dir : Path) (id : string) (updated : Z)
    (m m' : gmap Path fsnode) : Prop :=
  all_scannable dir m' ∧ unique_claims dir m' ∧
  (∃ p, claimant dir m' id p updated) ∧
  (∀ k p u, k ≠ id → claimant dir m' k p u ↔ claimant dir m k p u) ∧
  (∀ p, is_Some (m !! p) → is_Some (m' !! p)).

Definition media_not_md (E : Env) (note : Note) : Prop :=
  Forall (λ media, Str.endswith (media_file_name E media) ".md" = false)
    (all_note_media note).

Definition quiet {A} (m : M A) (w : world) (a : A) (w' : world) : Prop :=
  m w = (Ok a, w') ∧ fs w' = fs w ∧
  ∃ evs, trace w' = trace w ++ evs ∧ Forall is_echo evs.

(** Both directories exist, the scan will go through, and every remote note
    is claimed by exactly one note file, which records the remote timestamp. *)
Definition settled (dir : Path) (keep_all : list Note) (m : gmap Path fsnode) : Prop :=
  (is_Some (m !! dir) ∨ dir = []) ∧ is_Some (m !! joinpath dir "media") ∧
  all_scannable dir m ∧ unique_claims dir m ∧
  ∀ note, note ∈ (dict_of_notes keep_all).*2 →
          ∃ p, claimant dir m (note_id note) p (note_updated note).

Definition remote_ok (E : Env) (keep_all : list Note) : Prop :=
  Forall (λ note, note_id note ≠ "" ∧ media_not_md E note) keep_all.

(** * Example states *)

Definition stability_world : world :=
  {| fs := {[ ["out"; "a.md"] := Regular true (Plain "mine");
              ["out"; "20240101 - Todo.md"] := Regular true (Plain "foreign") ]};
     trace := [];
     local_index := {[ "X" := {| google_keep_id := "X"; path := Some ["out"; "a.md"];
                                  timestamp_updated := Some 100%Z; local_media := ∅ |} ]} |}.

Definition collision_world : world :=
  {| fs := {[ ["out"; "20240101 - Todo.md"] := Regular true (Plain "first");
              ["out"; "20240101 - Todo.B.1.md"] := Regular true (Plain "stray") ]};
     trace := []; local_index := ∅ |}.

Definition skip_world : world :=
  {| fs := {[ ["out"; "old title.md"] := Regular true
                (Frontmatter (Metadata (Some "X") (Some 100%Z)) "text") ]};
     trace := [];
     local_index := {[ "X" := {| google_keep_id := "X"; path := Some ["out"; "old title.md"];
                                  timestamp_updated := Some 100%Z; local_media := ∅ |} ]} |}.

Definition image (id : string) : Media :=
  {| media_id := id; meta_type := "IMAGE"; meta_mimetype := None;
     snapshot_mimetype := None; byte_size := None; media_content := "bytes" |}.

Definition note_with_image (id media : string) : Note :=
  {| note_id := id; note_title := "Todo"; note_created := 20240101; note_updated := 100;
     note_images := [image media]; note_drawings := []; note_audio := [] |}.

Definition unreadable_world : world :=
  {| fs := {[ ["out"; "bad.md"] := Regular false (Plain "") ]};
     trace := []; local_index := ∅ |}.

Definition malformed_world : world :=
  {| fs := {[ ["out"; "a broken.md"] := Regular true (Malformed "---");
              ["out"; "good.md"] := Regular true
                (Frontmatter (Metadata (Some "X") (Some 100%Z)) "text") ]};
     trace := []; local_index := ∅ |}.

Definition missing_updated_world : world :=
  {| fs := {[ ["out"; "no timestamps.md"] := Regular true
                (Frontmatter (Metadata (Some "X") None) "text") ]};
     trace := []; local_index := ∅ |}.

Definition orphan_media_world : world :=
  {| fs := {[ ["out"; "media"; "N"; "1.a.png"] := Regular true (Plain "one");
              ["out"; "media"; "N"; "2.b.png"] := Regular true (Plain "two") ]};
     trace := [];
     local_index :=
       {[ "N" := {| google_keep_id := "N"; path := None; timestamp_updated := None;
                    local_media :=
                      {[ "1.a" := {| media_path := ["out"; "media"; "N"; "1.a.png"];
                                     google_keep_note_id := "N";
                                     google_keep_media_id := "1.a" |};
                         "2.b" := {| media_path := ["out"; "media"; "N"; "2.b.png"];
                                     google_keep_note_id := "N";
                                     google_keep_media_id := "2.b" |} ]} |} ]} |}.

Definition stray_world : world :=
  {| fs := {[ ["out"; "readme.txt"] := Regular true (Plain "hello") ]};
     trace := []; local_index := ∅ |}.

Definition no_counts : counters :=
  {| skipped_notes := 0; updated_notes := 0; new_notes := 0; downloaded_media := 0 |}.


Definition chain_world : world :=
  {| fs := {[ ["out"; "1 - A.md"] := Regular true
                (Frontmatter (Metadata (Some "X") (Some 100%Z)) "first");
              ["out"; "1 - B.md"] := Regular true
                (Frontmatter (Metadata (Some "Y") (Some 100%Z)) "second") ]};
     trace := []; local_index := ∅ |}.

Definition recorded_200 (f : fsnode) : bool :=
  match f with
  | Regular _ (Frontmatter (Metadata _ (Some 200%Z)) _) => true
  | _ => false
  end.

(** A traversal whose order depends on the state of the directory. *)
Definition unstable_env : Env :=
  {| sanitize_filename := Demo.sanitize;
     strftime := λ _ created, pretty created;
     guess_extension := Demo.extensions;
     build_markdown := λ note _, note_title note;
     rglob := λ root m,
       if existsb recorded_200 (map_to_list m).*2
       then reverse (Demo.entries_below root m) else Demo.entries_below root m;
     st_size := Demo.size_of;
     rename_denied := λ _ _, false;
     unlink_denied := λ _, false;
     write_denied := λ _, false;
     mkdir_denied := λ _, false;
     fetch_fails := λ _ _, false |}.

Definition duplicate_world : world :=
  {| fs := {[ ["out"; "a.md"] := Regular true
                (Frontmatter (Metadata (Some "X") (Some 100%Z)) "one");
              ["out"; "b.md"] := Regular true
                (Frontmatter (Metadata (Some "X") (Some 100%Z)) "two") ]};
     trace := []; local_index := ∅ |}.

(** * Verification *)

(** ** Strings and paths *)

Lemma string_length_app (s t : string) :
  String.length (s +:+ t) = String.length s + String.length t.
Proof. induction s as [|c s IH]; simpl; [done | by rewrite IH]. Qed.

Lemma string_app_inv_tail (s1 s2 t : string) : s1 +:+ t = s2 +:+ t → s1 = s2.
Proof.
  revert s2. induction s1 as [|c s1 IH]; intros [|d s2] H; simpl in *.
  - done.
  - apply (f_equal String.length) in H.
    rewrite !string_length_app in H. simpl in H. lia.
  - apply (f_equal String.length) in H.
    rewrite !string_length_app in H. simpl in H. lia.
  - injection H as -> H. f_equal. by apply IH.
Qed.

Lemma joinpath_inj (p : Path) (a b : string) : joinpath p a = joinpath p b → a = b.
Proof. unfold joinpath. intros H. apply app_inv_head in H. by injection H. Qed.

Lemma name_joinpath (p : Path) (a : string) : name (joinpath p a) = a.
Proof. unfold name, joinpath. apply last_last. Qed.

Lemma parent_joinpath (p : Path) (a : string) : parent (joinpath p a) = p.
Proof. unfold parent, joinpath. apply removelast_last. Qed.

Lemma endswith_app (s suf : string) : Str.endswith (s +:+ suf) suf = true.
Proof.
  induction s as [|c s IH]; simpl.
  - destruct suf; simpl; [done|]. by rewrite bool_decide_eq_true_2.
  - rewrite IH. by case_bool_decide.
Qed.

(** ** The monad *)

Ltac munfold :=
  unfold mbind, M_bind, bind, mret, M_ret, ret, raise, get_world, emit, set_fs,
    set_local_index, echo, try_except in *.

Ltac wsimpl := simpl; rewrite <- ?app_assoc; simpl.

(** ** The dedupe loop of build_note_unique_path *)

Lemma candidate_inj (E : Env) (notepath : Path) (note : Note) (date_format : string) : Inj (=) (=) (candidate E notepath note date_format).
Proof.
  intros i j H. unfold candidate, dedupe_filename in H.
  apply joinpath_inj in H.
  do 4 apply (inj (String.app _)) in H.
  apply string_app_inv_tail in H. by apply (inj pretty) in H.
Qed.

(** A loop that gives up has found every candidate it tried on disk. *)
Lemma dedupe_loop_None (fuel : nat) (m : gmap Path fsnode) (cand : nat → Path)
    (target : Path) (i : nat) :
  dedupe_loop fuel m cand target i = None →
  is_Some (m !! target) ∧ ∀ k, i ≤ k < i + fuel → is_Some (m !! cand k).
Proof.
  revert target i. induction fuel as [|fuel IH]; intros target i; simpl.
  - case_bool_decide; [|done]. intros _. split; [done | lia].
  - case_bool_decide as Ht; [|done]. intros H.
    apply IH in H as [Hi Hk]. split; [done|].
    intros k Hik. destruct (decide (k = i)) as [->|]; [done|].
    apply Hk. lia.
Qed.

(** What the loop returns: the target itself when it is free, else the first
    free candidate, every earlier one being taken. *)
Lemma dedupe_loop_Some (fuel : nat) (m : gmap Path fsnode) (cand : nat → Path)
    (target : Path) (i : nat) (p : Path) :
  dedupe_loop fuel m cand target i = Some p →
  m !! p = None ∧
  (m !! target = None ∧ p = target ∨
   is_Some (m !! target) ∧
   ∃ n, i ≤ n ∧ p = cand n ∧ ∀ k, i ≤ k < n → is_Some (m !! cand k)).
Proof.
  revert target i. induction fuel as [|fuel IH]; intros target i; simpl.
  - case_bool_decide as Ht; [done|]. intros [= <-].
    apply eq_None_not_Some in Ht. auto.
  - case_bool_decide as Ht.
    + intros H. apply IH in H as [Hp [[Hc ->]|[Hc (n & Hn & -> & Hk)]]].
      * split; [done|]. right. split; [done|]. exists i. split; [lia|].
        split; [done|]. intros k ?; lia.
      * split; [done|]. right. split; [done|]. exists n. split; [lia|].
        split; [done|]. intros k Hik.
        destruct (decide (k = i)) as [->|]; [done|]. apply Hk. lia.
    + intros [= <-]. apply eq_None_not_Some in Ht. auto.
Qed.

(** The file system is finite and the candidates are pairwise distinct, so
    one more round than there are files is enough. *)
Lemma dedupe_loop_total (m : gmap Path fsnode) (cand : nat → Path)
    (target : Path) (i : nat) :
  Inj (=) (=) cand → is_Some (dedupe_loop (S (size m)) m cand target i).
Proof.
  intros Hinj. destruct (dedupe_loop _ _ _ _ _) eqn:Hloop; [done|].
  apply dedupe_loop_None in Hloop as [_ Hk].
  assert (size (list_to_set (C := gset Path) (cand <$> seq i (S (size m)))) ≤ size (dom m))
    as Hsize.
  { apply subseteq_size. intros p Hp.
    apply elem_of_list_to_set, list_elem_of_fmap in Hp as (k & -> & Hin).
    apply elem_of_seq in Hin. apply elem_of_dom, Hk. lia. }
  rewrite size_list_to_set, length_fmap, length_seq, size_dom in Hsize.
  - lia.
  - apply NoDup_fmap_2; [done | apply NoDup_seq].
Qed.

(** The allocator returns, changes neither the files nor the index, and only
    echoes; it either keeps the indexed path or allocates a free one. *)
Lemma build_note_unique_path_cases (E : Env) (notepath : Path) (note : Note) (date_format : string)
    (w : world) :
  let target := canonical_path E notepath note date_format in
  let local_path := local_index w !! note_id note ≫= path in
  ∃ p evs,
    build_note_unique_path E notepath note date_format w
      = (Ok p, World (fs w) (trace w ++ evs) (local_index w)) ∧
    Forall is_echo evs ∧
    ((local_path = Some p ∧ (p = target ∨ is_Some (fs w !! target))) ∨
     ((local_path = None ∨ fs w !! target = None) ∧
      fs w !! p = None ∧
      (fs w !! target = None ∧ p = target ∨
       is_Some (fs w !! target) ∧
       ∃ n, 1 ≤ n ∧ p = candidate E notepath note date_format n ∧
            ∀ k, 1 ≤ k < n → is_Some (fs w !! candidate E notepath note date_format k)))).
Proof.
  intros target local_path. destruct w as [m tr idx]. simpl in *.
  assert (∃ p, dedupe E notepath note date_format target (World m tr idx)
               = (Ok p, World m (tr ++ []) idx) ∧
               m !! p = None ∧
               (m !! target = None ∧ p = target ∨
                is_Some (m !! target) ∧
                ∃ n, 1 ≤ n ∧ p = candidate E notepath note date_format n ∧
                     ∀ k, 1 ≤ k < n → is_Some (m !! candidate E notepath note date_format k)))
    as (q & Hrun & Hfree & Hq).
  { unfold dedupe. munfold. cbn [fs].
    fold (candidate E notepath note date_format).
    destruct (dedupe_loop_total m (candidate E notepath note date_format) target 1
                (candidate_inj E notepath note date_format)) as [q Hq].
    rewrite Hq, app_nil_r.
    exists q. split; [done|]. by apply dedupe_loop_Some in Hq. }
  unfold build_note_unique_path. munfold. simpl.
  fold (canonical_path E notepath note date_format). fold target. fold local_path.
  destruct local_path as [lp|] eqn:Hlp.
  - case_bool_decide as Heq.
    + exists lp, []. rewrite app_nil_r. split; [done|]. split; [done|]. left. auto.
    + unfold exists_. simpl. case_bool_decide as Hex.
      * exists lp, [Echo (WillNotBeRenamed (note_id note) target)].
        split; [done|]. split; [by repeat constructor|]. left. auto.
      * exists q, []. split; [done|]. split; [done|]. right.
        apply eq_None_not_Some in Hex. auto.
  - exists q, []. split; [done|]. split; [done|]. right. auto.
Qed.

(** ** Claims about the allocator *)

(** C3 (allocator stability): for a remote note with an indexed local path,
    [build_note_unique_path] returns that path unchanged when it already
    equals the canonical target, and also when the canonical target exists
    on disk; in the second case no dedupe suffix is tried, the files and the
    index are left as they are. *)
Theorem allocator_stability (E : Env) (notepath : Path) (note : Note)
    (date_format : string) (w : world) (local_note : LocalNote) (local_path : Path) :
  local_index w !! note_id note = Some local_note →
  path local_note = Some local_path →
  local_path = canonical_path E notepath note date_format ∨
    exists_ w (canonical_path E notepath note date_format) = true →
  ∃ w', build_note_unique_path E notepath note date_format w = (Ok local_path, w') ∧
        fs w' = fs w ∧ local_index w' = local_index w.
Proof.
  intros Hidx Hpath Hcase.
  destruct (build_note_unique_path_cases E notepath note date_format w)
    as (p & evs & Hrun & _ & Hp).
  rewrite Hidx in Hp. simpl in Hp. rewrite Hpath in Hp.
  assert (p = local_path) as ->.
  { destruct Hp as [[[= ->] _]|[Hfree [Hnone Hp]]]; [done|].
    destruct Hfree as [?|Hfree]; [done|].
    destruct Hcase as [->|Hex].
    - destruct Hp as [[_ ->]|[[? Hs] _]]; [done | congruence].
    - unfold exists_ in Hex. apply bool_decide_eq_true in Hex as [? Hex]. congruence. }
  eexists. split; [exact Hrun|]. done.
Qed.

Lemma allocator_stability_witness :
  ∃ w', build_note_unique_path Demo.env ["out"] (Demo.note "X" "Todo" 20240101 200)
          "%Y-%m-%d" stability_world = (Ok ["out"; "a.md"], w') ∧
        fs w' = fs stability_world ∧ local_index w' = local_index stability_world.
Proof.
  apply (allocator_stability Demo.env ["out"] (Demo.note "X" "Todo" 20240101 200)
           "%Y-%m-%d" stability_world
           {| google_keep_id := "X"; path := Some ["out"; "a.md"];
              timestamp_updated := Some 100%Z; local_media := ∅ |}).
  - reflexivity.
  - reflexivity.
  - right. vm_compute. reflexivity.
Defined.

(** C2 (allocator uniqueness and non-destructiveness): [build_note_unique_path]
    always returns, without touching the files; the path it returns is the
    note's own indexed path or a path that does not exist on disk at call
    time.  For a note without local path whose canonical target exists, the
    result is the first free name among the candidates suffixed with the
    identifier and 1, 2, 3, ...: every earlier candidate exists.  Hence a
    note allocated later, once the file of the first has been created,
    receives a different path. *)
Theorem allocator_unique_nondestructive (E : Env) (notepath : Path) (note : Note)
    (date_format : string) (w : world) :
  ∃ p w',
    build_note_unique_path E notepath note date_format w = (Ok p, w') ∧
    fs w' = fs w ∧
    (local_index w !! note_id note ≫= path = Some p ∨ fs w !! p = None) ∧
    (local_index w !! note_id note ≫= path = None →
     is_Some (fs w !! canonical_path E notepath note date_format) →
     ∃ n, 1 ≤ n ∧ p = candidate E notepath note date_format n ∧
          fs w !! candidate E notepath note date_format n = None ∧
          ∀ k, 1 ≤ k < n → is_Some (fs w !! candidate E notepath note date_format k)) ∧
    (∀ note2 w2 p2 w2',
       local_index w2 !! note_id note2 ≫= path = None →
       is_Some (fs w2 !! p) →
       build_note_unique_path E notepath note2 date_format w2 = (Ok p2, w2') →
       p2 ≠ p).
Proof.
  destruct (build_note_unique_path_cases E notepath note date_format w)
    as (p & evs & Hrun & _ & Hp).
  exists p. eexists. split; [exact Hrun|]. split; [done|]. split; [|split].
  - destruct Hp as [[? _]|(_ & ? & _)]; auto.
  - intros Hnone Hex. destruct Hp as [[Hsome _]|(_ & Hfree & Hp)]; [congruence|].
    destruct Hp as [[Hc _]|[_ (n & Hn & -> & Hk)]].
    + rewrite Hc in Hex. by destruct Hex.
    + exists n. auto.
  - intros note2 w2 p2 w2' Hnone Hex Hrun2.
    destruct (build_note_unique_path_cases E notepath note2 date_format w2)
      as (q & evs2 & Hrun2' & _ & Hq).
    rewrite Hrun2 in Hrun2'. injection Hrun2' as -> _.
    destruct Hq as [[Hsome _]|(_ & Hfree & _)]; [congruence|].
    intros ->. rewrite Hfree in Hex. by destruct Hex.
Qed.

Lemma allocator_unique_nondestructive_witness :
  (build_note_unique_path Demo.env ["out"] (Demo.note "B" "Todo" 20240101 200)
     "%Y-%m-%d" collision_world).1 = Ok ["out"; "20240101 - Todo.B.2.md"] ∧
  ∃ n, 1 ≤ n ∧
       ["out"; "20240101 - Todo.B.2.md"]
         = candidate Demo.env ["out"] (Demo.note "B" "Todo" 20240101 200) "%Y-%m-%d" n ∧
       ∀ k, 1 ≤ k < n →
         is_Some (fs collision_world
                    !! candidate Demo.env ["out"] (Demo.note "B" "Todo" 20240101 200)
                         "%Y-%m-%d" k).
Proof.
  destruct (allocator_unique_nondestructive Demo.env ["out"]
              (Demo.note "B" "Todo" 20240101 200) "%Y-%m-%d" collision_world)
    as (p & w' & Hrun & _ & _ & Hfirst & _).
  assert (p = ["out"; "20240101 - Todo.B.2.md"]) as ->.
  { vm_compute in Hrun. by injection Hrun as <- _. }
  split; [by vm_compute|].
  destruct Hfirst as (n & Hn & Hp & _ & Hk).
  - reflexivity.
  - vm_compute. eauto.
  - exists n. auto.
Defined.

(** ** The rename reconciler *)

(** [try_rename_note] never raises.  Without previous path it answers the
    target; a rename that succeeds moves the file; a rename that fails leaves
    the files alone and answers the previous path. *)
Lemma try_rename_note_cases (E : Env) (note : LocalNote) (target : Path) (w : world) :
  ∃ p evs m',
    try_rename_note E note target w
      = (Ok p, World m' (trace w ++ evs) (local_index w)) ∧
    ((path note = None ∧ p = target ∧ m' = fs w ∧ evs = []) ∨
     (∃ old f, path note = Some old ∧ p = target ∧ fs w !! old = Some f ∧
               m' = <[target := f]> (delete old (fs w)) ∧
               evs = [Echo (Renaming old target); Rename old target]) ∨
     (∃ old, path note = Some old ∧ p = old ∧ m' = fs w ∧
             evs = [Echo (Renaming old target); Echo UnableToRename])).
Proof.
  destruct w as [m tr idx]. unfold try_rename_note.
  destruct (path note) as [old|] eqn:Hold.
  - unfold rename. munfold. simpl.
    assert (∀ P : Prop,
      (∃ p evs m', (Ok old, World m ((tr ++ [Echo (Renaming old target)])
                                       ++ [Echo UnableToRename]) idx)
                   = (Ok p, World m' (tr ++ evs) idx) ∧
         (P ∨ (∃ old0, Some old = Some old0 ∧ p = old0 ∧ m' = m ∧
                 evs = [Echo (Renaming old0 target); Echo UnableToRename]))))
      as Hfail.
    { intros P. exists old, [Echo (Renaming old target); Echo UnableToRename], m.
      rewrite <- app_assoc. split; [done|]. right. eauto. }
    destruct (rename_denied E old target).
    { destruct (Hfail False) as (p & evs & m' & Heq & [[]|Hr]).
      exists p, evs, m'. split; [done|]. auto. }
    destruct (m !! old) as [f|] eqn:Hf.
    + destruct (m !! target) as [[|r c]|] eqn:Ht.
      * destruct (Hfail False) as (p & evs & m' & Heq & [[]|Hr]).
        exists p, evs, m'. destruct f; (split; [done|]); auto.
      * eexists target, [Echo (Renaming old target); Rename old target], _.
        destruct f; wsimpl; (split; [done|]); right; left; eauto 10.
      * eexists target, [Echo (Renaming old target); Rename old target], _.
        destruct f; wsimpl; (split; [done|]); right; left; eauto 10.
    + destruct (Hfail False) as (p & evs & m' & Heq & [[]|Hr]).
      exists p, evs, m'. split; [done|]. auto.
  - munfold. exists target, [], m. rewrite app_nil_r. split; [done|]. left. auto.
Qed.

(** ** The per-note decision *)

(** C4 (timestamp-driven skip): a remote note found in the index with a
    recorded [updated] timestamp equal to the remote one is counted as
    skipped and as nothing else; the loop body returns without a media
    request, a directory creation, a deletion or a file write: its events
    are echoes and at most the rename of the path resolution, which comes
    before the decision; with renaming disabled the files are unchanged. *)
Theorem timestamp_driven_skip (E : Env) (cfg : Config) (notepath mediapath : Path)
    (note : Note) (c : counters) (w : world) (local_note : LocalNote) :
  local_index w !! note_id note = Some local_note →
  timestamp_updated local_note = Some (note_updated note) →
  ∃ w' evs,
    process_note E cfg notepath mediapath note c w = (Ok (count_skipped c), w') ∧
    trace w' = trace w ++ evs ∧
    Forall is_echo_or_rename evs ∧
    local_index w' = local_index w ∧
    (rename_local cfg = false → fs w' = fs w).
Proof.
  intros Hidx Hts.
  destruct (build_note_unique_path_cases E notepath note (date_format cfg) w)
    as (p & evs & Hrun & Hevs & _).
  unfold process_note. munfold. rewrite Hidx, Hrun.
  assert (Forall is_echo_or_rename evs) as Hevs'.
  { eapply Forall_impl; [exact Hevs|]. by intros []. }
  destruct (path local_note) as [local_path|] eqn:Hpath.
  - destruct (rename_local cfg && negb (bool_decide (local_path = p))) eqn:Hren.
    + destruct (try_rename_note_cases E local_note p
                  (World (fs w) (trace w ++ evs) (local_index w)))
        as (q & evs2 & m' & Hrun2 & Hcases).
      rewrite Hrun2. simpl. rewrite bool_decide_eq_true_2 by done.
      eexists _, (evs ++ evs2). split; [done|]. simpl.
      split; [by rewrite app_assoc|]. split; [|split; [done|]].
      * apply Forall_app. split; [done|].
        destruct Hcases as [(_ & _ & _ & ->)|[(? & ? & _ & _ & _ & _ & ->)|(? & _ & _ & _ & ->)]];
          by repeat constructor.
      * intros Hoff. rewrite Hoff in Hren. done.
    + simpl. rewrite bool_decide_eq_true_2 by done.
      eexists _, evs. simpl. done.
  - simpl. rewrite bool_decide_eq_true_2 by done.
    eexists _, evs. simpl. done.
Qed.

Lemma timestamp_driven_skip_witness :
  ∃ w' evs,
    process_note Demo.env (Demo.config true false true) ["out"] ["out"; "media"]
      (Demo.note "X" "Todo" 20240101 100)
      {| skipped_notes := 0; updated_notes := 0; new_notes := 0; downloaded_media := 0 |}
      skip_world
    = (Ok {| skipped_notes := 1; updated_notes := 0; new_notes := 0; downloaded_media := 0 |},
       w') ∧
    trace w' = trace skip_world ++ evs ∧
    Forall is_echo_or_rename evs ∧
    local_index w' = local_index skip_world ∧
    (rename_local (Demo.config true false true) = false → fs w' = fs skip_world).
Proof.
  apply (timestamp_driven_skip Demo.env (Demo.config true false true) ["out"] ["out"; "media"]
           (Demo.note "X" "Todo" 20240101 100)
           {| skipped_notes := 0; updated_notes := 0; new_notes := 0; downloaded_media := 0 |}
           skip_world
           {| google_keep_id := "X"; path := Some ["out"; "old title.md"];
              timestamp_updated := Some 100%Z; local_media := ∅ |}).
  - reflexivity.
  - reflexivity.
Defined.

(** ** Recovering the media identifier from a file name *)

Lemma split_no_dot (s : string) : Str.count dot s = 0 → Str.split dot s = [s].
Proof.
  induction s as [|c s IH]; simpl; [done|].
  case_bool_decide; [done|]. intros Hs. by rewrite IH.
Qed.

Lemma split_app_dot (s t : string) :
  Str.count dot s = 0 → Str.split dot (s +:+ String dot t) = s :: Str.split dot t.
Proof.
  induction s as [|c s IH]; simpl.
  - done.
  - case_bool_decide; [done|]. intros Hs. by rewrite IH.
Qed.

Lemma count_one_dot (s : string) :
  Str.count dot s = 1 →
  ∃ a b, s = a +:+ String dot b ∧ Str.count dot a = 0 ∧ Str.count dot b = 0.
Proof.
  induction s as [|c s IH]; simpl; [done|].
  case_bool_decide as Hc.
  - intros Hs. exists EmptyString, s. subst c. split; [done|]. split; [done | lia].
  - intros Hs. destruct (IH Hs) as (a & b & -> & Ha & Hb).
    exists (String c a), b. split; [done|]. split; [|done].
    simpl. by rewrite bool_decide_eq_false_2.
Qed.

Lemma string_app_cons (x : ascii) (s t : string) : String x s +:+ t = String x (s +:+ t).
Proof. reflexivity. Qed.

Lemma string_app_assoc (a b c : string) : (a +:+ b) +:+ c = a +:+ (b +:+ c).
Proof. induction a as [|x a IH]; [done|]. rewrite !string_app_cons. by f_equal. Qed.

(** An identifier with exactly one dot survives any extension that starts
    with a dot. *)
Lemma media_id_of_name_one_dot (s e : string) :
  Str.count dot s = 1 → media_id_of_name (s +:+ String dot e) = s.
Proof.
  intros H. destruct (count_one_dot s H) as (a & b & -> & Ha & Hb).
  unfold media_id_of_name.
  rewrite string_app_assoc. change (String dot b +:+ String dot e)
    with (String dot (b +:+ String dot e)).
  rewrite (split_app_dot a) by done. rewrite (split_app_dot b) by done.
  destruct (Str.split dot e); done.
Qed.

Lemma elem_of_keep_media (keep_notes : list (string * Note)) (note : Note) (m : Media) :
  note ∈ keep_notes.*2 → m ∈ all_note_media note →
  (note_id note, media_id m) ∈ keep_media keep_notes.
Proof.
  intros Hn Hm. unfold keep_media. apply elem_of_list_to_set.
  apply list_elem_of_bind. exists note. split; [|done].
  apply list_elem_of_bind. exists m. split; [|done]. by apply list_elem_of_singleton.
Qed.

Lemma lookup_setdefault (k : string) (index : gmap string LocalNote) :
  setdefault k index !! k = Some (default (new_LocalNote k) (index !! k)).
Proof.
  unfold setdefault. destruct (index !! k) eqn:H; simpl; [done|].
  by rewrite lookup_insert_eq.
Qed.

Lemma lookup_setdefault_ne (k k' : string) (index : gmap string LocalNote) :
  k ≠ k' → setdefault k index !! k' = index !! k'.
Proof.
  intros Hne. unfold setdefault. destruct (index !! k); [done|].
  by rewrite lookup_insert_ne.
Qed.

(** What the media branch records for a file. *)
Lemma scan_media_lookup (st : scan_state) (file : Path) :
  index (scan_media st file) !! name (parent file)
  ≫= (λ note, local_media note !! media_id_of_name (name file))
  = Some {| media_path := file; google_keep_note_id := name (parent file);
            google_keep_media_id := media_id_of_name (name file) |}.
Proof.
  unfold scan_media. simpl. rewrite lookup_alter_eq, lookup_setdefault. simpl.
  by rewrite lookup_insert_eq.
Qed.

(** C6, as amended (media identifier round trip): when the media identifier
    holds exactly one dot (the shape of the remote identifiers), is left
    unchanged by the sanitisation, and the guessed extension starts with a
    dot, the file the downloader writes at media/<note id>/<media id><ext>
    is indexed by the next scan under the pair (note id, media id) of the
    remote medium, and this pair is not local-only. *)
Theorem media_id_round_trip (E : Env) (note : Note) (m : Media) (mediapath : Path)
    (e : string) (st : scan_state) (readable : bool) (c : content) :
  Str.count dot (media_id m) = 1 →
  sanitize_filename E (media_id m) = media_id m →
  extension E m = Some (String dot e) →
  Str.endswith (media_file_name E m) ".md" = false →
  let media_file := joinpath (joinpath mediapath (note_id note)) (media_file_name E m) in
  media_id_of_name (name media_file) = media_id m ∧
  name (parent media_file) = note_id note ∧
  (∃ st', scan_file st (media_file, Regular readable c) = ([], Ok st') ∧
          index st' !! note_id note ≫= (λ local_note, local_media local_note !! media_id m)
          = Some {| media_path := media_file; google_keep_note_id := note_id note;
                    google_keep_media_id := media_id m |}) ∧
  (∀ index keep_notes,
     note ∈ keep_notes.*2 → m ∈ all_note_media note →
     (note_id note, media_id m) ∉ local_only_media_ids index keep_notes).
Proof.
  intros Hdot Hsan Hext Hmd media_file.
  assert (media_id_of_name (name media_file) = media_id m) as Hid.
  { unfold media_file. rewrite name_joinpath. unfold media_file_name.
    rewrite Hsan, Hext. simpl. by apply media_id_of_name_one_dot. }
  assert (name (parent media_file) = note_id note) as Hparent.
  { unfold media_file. by rewrite parent_joinpath, name_joinpath. }
  split; [done|]. split; [done|]. split.
  - exists (scan_media st media_file). split.
    + unfold scan_file. simpl. unfold media_file at 1. rewrite name_joinpath, Hmd. done.
    + rewrite <- Hid, <- Hparent. apply scan_media_lookup.
  - intros index keep_notes Hn Hm. unfold local_only_media_ids.
    apply not_elem_of_difference. right. by apply elem_of_keep_media.
Qed.

Lemma media_id_round_trip_witness :
  media_id_of_name (name ["out"; "media"; "N"; "17f.abc.jpg"]) = "17f.abc" ∧
  name (parent ["out"; "media"; "N"; "17f.abc.jpg"]) = "N" ∧
  ("N", "17f.abc") ∉ local_only_media_ids ∅ [("N", note_with_image "N" "17f.abc")].
Proof.
  destruct (media_id_round_trip Demo.env (note_with_image "N" "17f.abc") (image "17f.abc")
              ["out"; "media"] "jpg" scan_init true (Plain "bytes"))
    as (Hid & Hparent & _ & Hremote).
  - reflexivity.
  - reflexivity.
  - reflexivity.
  - reflexivity.
  - split; [exact Hid|]. split; [exact Hparent|].
    apply Hremote.
    + apply list_elem_of_singleton. reflexivity.
    + apply list_elem_of_singleton. reflexivity.
Defined.

(** The claim C6 as the specification states it fails: for the dot-free
    identifier "abc" the downloader writes abc.jpg, the scan recovers
    "abc.jpg", and the file is classified as local-only although the remote
    note still has the medium. *)
Lemma media_id_round_trip_fails_without_dot :
  let m := image "abc" in
  let note := note_with_image "N" "abc" in
  let media_file := joinpath (joinpath ["out"; "media"] (note_id note))
                      (media_file_name Demo.env m) in
  Str.count dot (media_id m) = 0 ∧
  media_file = ["out"; "media"; "N"; "abc.jpg"] ∧
  media_id_of_name (name media_file) = "abc.jpg" ∧
  media_id_of_name (name media_file) ≠ media_id m ∧
  local_only_media_ids (index (scan_media scan_init media_file)) [("N", note)]
  = {[ ("N", "abc.jpg") ]}.
Proof.
  repeat split; try reflexivity. discriminate.
Qed.

(** ** The local index builder: error handling *)

(** The [except IOError] branch assigns [errors = 0], so the counter of the
    summary line stays 0 whatever the scan meets. *)
Lemma scan_files_errors (l : list (Path * fsnode)) (st st' : scan_state)
    (ms : list message) :
  errors st = 0 → scan_files l st = (ms, Ok st') → errors st' = 0.
Proof.
  revert st ms. induction l as [|[file f] l IH]; intros st ms Hst; simpl.
  - by intros [= _ <-].
  - destruct (negb (is_file f)).
    { destruct (scan_files l st) as [ms' r] eqn:Hl. intros [= _ ->]. eauto. }
    destruct (Str.endswith (name file) ".md").
    + unfold scan_markdown.
      destruct (frontmatter_load f) as [metadata|[]]; simpl;
        try (destruct (scan_files l _) as [ms' r] eqn:Hl; intros [= _ ->];
             eapply IH; [|exact Hl]; done);
        try done.
      destruct (Str.truthy (md_google_keep_id metadata)).
      * destruct (md_updated metadata); [|done].
        destruct (scan_files l _) as [ms' r] eqn:Hl. intros [= _ ->].
        eapply IH; [|exact Hl]; done.
      * destruct (scan_files l _) as [ms' r] eqn:Hl. intros [= _ ->].
        eapply IH; [|exact Hl]; done.
    + destruct (scan_files l _) as [ms' r] eqn:Hl. intros [= _ ->].
      eapply IH; [|exact Hl]; done.
Qed.

(** C5 (recoverable scan errors), the code at the failing inputs: a note
    file that cannot be opened is skipped, but the summary line reports 0
    errors, not 1; a note file whose metadata block is malformed, or has an
    identifier and no [updated] timestamp, is not skipped: the exception is
    no IOError, it leaves the scan, and no index is built. *)
Theorem scan_errors_not_counted_and_malformed_aborts :
  index_existing_files Demo.env ["out"] unreadable_world
  = (Ok tt, {| fs := fs unreadable_world;
               trace := [Echo UnableToOpen; Echo (IndexedLocalFiles 0 0 0 0)];
               local_index := ∅ |}) ∧
  index_existing_files Demo.env ["out"] malformed_world
  = (Raise ParseError, malformed_world) ∧
  index_existing_files Demo.env ["out"] missing_updated_world
  = (Raise TypeError, missing_updated_world).
Proof. repeat split; reflexivity. Qed.

(** ** Orphan detection with deletion disabled *)

(** With deletion disabled the orphan detector returns (0, 0), unlinks
    nothing and leaves files and index as they are: it only echoes. *)
Lemma delete_local_only_files_disabled (E : Env) (keep_notes : list (string * Note))
    (w : world) :
  ∃ evs, delete_local_only_files E keep_notes false w
         = (Ok (0, 0), World (fs w) (trace w ++ evs) (local_index w)) ∧
         Forall is_echo evs.
Proof.
  destruct w as [m tr idx]. unfold delete_local_only_files. munfold. simpl.
  case_bool_decide; simpl; case_bool_decide; simpl.
  - exists []. by rewrite app_nil_r.
  - eexists [_]. split; [done|]. by repeat constructor.
  - eexists [_]. split; [done|]. by repeat constructor.
  - eexists [_; _]. rewrite <- app_assoc. split; [done|]. by repeat constructor.
Qed.

(** C7 (deletion gating), the code at the failing input: with deletion
    disabled nothing is unlinked and (0, 0) is returned, but the line that
    reports the local-only media prints the number of local-only notes:
    here two media files are local-only and the report says 0. *)
Theorem deletion_gating_reports_note_count_for_media :
  let keep_notes := [("N", Demo.note "N" "Todo" 20240101 100)] in
  size (local_only_media_ids (local_index orphan_media_world) keep_notes) = 2 ∧
  size (local_only_note_ids (local_index orphan_media_world) keep_notes) = 0 ∧
  delete_local_only_files Demo.env keep_notes false orphan_media_world
  = (Ok (0, 0), {| fs := fs orphan_media_world;
                   trace := [Echo (MediaExistLocallyAddArgument 0)];
                   local_index := local_index orphan_media_world |}).
Proof. repeat split; reflexivity. Qed.

(** ** What the scan computes

    The index after a scan is described entry by entry from the listing:
    the note file that wins an identifier is the last one that claims it,
    the media file that wins a pair is the last one with that pair. *)

Lemma scan_files_app (l1 l2 : list (Path * fsnode)) (st : scan_state) :
  scan_files (l1 ++ l2) st
  = match scan_files l1 st with
    | (ms1, Ok st1) => let '(ms2, r) := scan_files l2 st1 in (ms1 ++ ms2, r)
    | (ms1, Raise e) => (ms1, Raise e)
    end.
Proof.
  revert st. induction l1 as [|entry l1 IH]; intros st; simpl.
  - by destruct (scan_files l2 st).
  - destruct (scan_file st entry) as [ms [st'|e]]; [|done].
    rewrite IH. destruct (scan_files l1 st') as [ms1 [st1|e]]; [|done].
    destruct (scan_files l2 st1) as [ms2 r]. by rewrite app_assoc.
Qed.

Lemma note_files_snoc (l : list (Path * fsnode)) (entry : Path * fsnode) (k : string) :
  note_files (l ++ [entry]) k
  = note_files l k ++ match claims k entry with
                      | Some updated => [(entry.1, updated)]
                      | None => []
                      end.
Proof. unfold note_files. rewrite omap_app. simpl. by destruct (claims k entry). Qed.

Lemma media_entries_snoc (l : list (Path * fsnode)) (entry : Path * fsnode) (k : string) :
  media_entries (l ++ [entry]) k
  = media_entries l k ++ (if is_media_of k entry then [entry] else []).
Proof.
  unfold media_entries. rewrite filter_app. f_equal.
  rewrite filter_cons. destruct (is_media_of k entry); by case_decide.
Qed.

Lemma media_files_snoc (l : list (Path * fsnode)) (entry : Path * fsnode)
    (k media_id : string) :
  media_files (l ++ [entry]) k media_id
  = media_files l k media_id
    ++ (if is_media_of k entry && bool_decide (media_id_of_name (name entry.1) = media_id)
        then [entry.1] else []).
Proof.
  unfold media_files. rewrite media_entries_snoc, filter_app, fmap_app. f_equal.
  destruct (is_media_of k entry); simpl; [|done].
  rewrite filter_cons. case_decide; by case_bool_decide.
Qed.

Lemma media_files_nil (l : list (Path * fsnode)) (k media_id : string) :
  media_entries l k = [] → media_files l k media_id = [].
Proof. unfold media_files. by intros ->. Qed.

(** An entry that neither claims [k] nor is a media file of [k] leaves the
    description of [k] as it is. *)
Lemma entry_matches_snoc_other (l : list (Path * fsnode)) (entry : Path * fsnode)
    (k : string) (o : option LocalNote) :
  claims k entry = None → is_media_of k entry = false →
  entry_matches l k o → entry_matches (l ++ [entry]) k o.
Proof.
  intros Hc Hm. unfold entry_matches, note_matches.
  rewrite note_files_snoc, media_entries_snoc, Hc, Hm, !app_nil_r.
  destruct o as [note|]; [|done].
  intros (? & ? & ? & Hmedia & ?). repeat split; try done.
  intros mid. by rewrite media_files_snoc, Hm, app_nil_r.
Qed.

(** One iteration keeps the description of the index. *)
Lemma scan_file_matches (l : list (Path * fsnode)) (entry : Path * fsnode)
    (st st' : scan_state) (ms : list message) :
  index_matches l (index st) →
  scan_file st entry = (ms, Ok st') →
  index_matches (l ++ [entry]) (index st').
Proof.
  intros Hl Hscan k. specialize (Hl k).
  destruct entry as [file f]. unfold scan_file in Hscan.
  destruct (is_file f) eqn:Hfile; simpl in Hscan.
  2:{ injection Hscan as _ <-.
      apply entry_matches_snoc_other; [| |done]; unfold claims, is_media_of; simpl;
        by rewrite Hfile. }
  destruct (Str.endswith (name file) ".md") eqn:Hmd.
  - (* a note file *)
    assert (is_media_of k (file, f) = false) as Hnomedia.
    { unfold is_media_of. simpl. by rewrite Hfile, Hmd. }
    unfold scan_markdown in Hscan.
    destruct (frontmatter_load f) as [metadata|e] eqn:Hload.
    2:{ destruct e; try done. injection Hscan as _ <-.
        apply entry_matches_snoc_other; [|done|done].
        unfold claims. simpl. by rewrite Hfile, Hmd, Hload. }
    destruct (Str.truthy (md_google_keep_id metadata)) as [gid|] eqn:Hgid.
    2:{ injection Hscan as _ <-.
        apply entry_matches_snoc_other; [|done|done].
        unfold claims. simpl. by rewrite Hfile, Hmd, Hload, Hgid. }
    destruct (md_updated metadata) as [updated|] eqn:Hupd; [|done].
    injection Hscan as _ <-. simpl.
    destruct (decide (gid = k)) as [->|Hne].
    + assert (claims k (file, f) = Some updated) as Hclaim.
      { unfold claims. simpl. rewrite Hfile, Hmd, Hload, Hgid. simpl.
        by rewrite bool_decide_eq_true_2. }
      rewrite lookup_alter_eq, lookup_setdefault. simpl.
      unfold note_matches. rewrite note_files_snoc, media_entries_snoc, Hclaim, Hnomedia.
      rewrite last_snoc, app_nil_r. simpl.
      destruct (index st !! k) as [note|]; simpl in *.
      * destruct Hl as (Hid & _ & _ & Hmedia & _).
        split; [done|]. split; [done|]. split; [done|]. split.
        -- intros mid. by rewrite media_files_snoc, Hnomedia, app_nil_r.
        -- left. by destruct (note_files l k).
      * destruct Hl as [_ Hnone].
        split; [done|]. split; [done|]. split; [done|]. split.
        -- intros mid. rewrite media_files_snoc, Hnomedia, app_nil_r.
           by rewrite media_files_nil.
        -- left. by destruct (note_files l k).
    + rewrite lookup_alter_ne, lookup_setdefault_ne by done.
      apply entry_matches_snoc_other; [|done|done].
      unfold claims. simpl. rewrite Hfile, Hmd, Hload, Hgid. simpl.
      rewrite bool_decide_eq_false_2; [done | congruence].
  - (* a media file *)
    assert (claims k (file, f) = None) as Hnoclaim.
    { unfold claims. simpl. by rewrite Hfile, Hmd. }
    injection Hscan as _ <-. unfold scan_media. simpl.
    destruct (decide (name (parent file) = k)) as [<-|Hne].
    + assert (is_media_of (name (parent file)) (file, f) = true) as Hmedia_of.
      { unfold is_media_of. simpl. rewrite Hfile, Hmd. simpl.
        by rewrite bool_decide_eq_true_2. }
      rewrite lookup_alter_eq, lookup_setdefault.
      unfold entry_matches, note_matches.
      rewrite note_files_snoc, media_entries_snoc, Hnoclaim, Hmedia_of, app_nil_r.
      assert (∀ (note : LocalNote) mid,
        (local_media note !! mid
         = (λ p, {| media_path := p; google_keep_note_id := name (parent file);
                    google_keep_media_id := mid |})
           <$> last (media_files l (name (parent file)) mid)) →
        <[media_id_of_name (name file) :=
            {| media_path := file; google_keep_note_id := name (parent file);
               google_keep_media_id := media_id_of_name (name file) |}]>
          (local_media note) !! mid
        = (λ p, {| media_path := p; google_keep_note_id := name (parent file);
                   google_keep_media_id := mid |})
          <$> last (media_files (l ++ [(file, f)]) (name (parent file)) mid)) as Hins.
      { intros note mid Hmid. rewrite media_files_snoc, Hmedia_of. simpl.
        case_bool_decide as Heq.
        - subst mid. by rewrite lookup_insert_eq, last_snoc.
        - by rewrite lookup_insert_ne, app_nil_r. }
      destruct (index st !! name (parent file)) as [note|]; simpl in *.
      * destruct Hl as (Hid & Hpath & Hts & Hmedia & _).
        split; [done|]. split; [done|]. split; [done|]. split.
        -- intros mid. by apply Hins.
        -- right. by destruct (media_entries l (name (parent file))).
      * destruct Hl as [Hnotes Hnone]. rewrite Hnotes.
        split; [done|]. split; [done|]. split; [done|]. split.
        -- intros mid. apply (Hins (new_LocalNote (name (parent file)))). simpl.
           by rewrite media_files_nil.
        -- right. by destruct (media_entries l (name (parent file))).
    + rewrite lookup_alter_ne, lookup_setdefault_ne by done.
      apply entry_matches_snoc_other; [done| |done].
      unfold is_media_of. simpl. rewrite Hfile, Hmd. simpl.
      by rewrite bool_decide_eq_false_2.
Qed.

(** A scan that returns has computed the index the listing describes. *)
Lemma scan_files_matches (l : list (Path * fsnode)) (st : scan_state) (ms : list message) :
  scan_files l scan_init = (ms, Ok st) → index_matches l (index st).
Proof.
  revert st ms. induction l as [|entry l IH] using rev_ind; intros st ms.
  - simpl. intros [= _ <-]. intros k. simpl. done.
  - rewrite scan_files_app.
    destruct (scan_files l scan_init) as [ms1 [st1|e]] eqn:Hl; [|done].
    simpl. destruct (scan_file st1 entry) as [ms2 [st2|e]] eqn:Hentry; [|done].
    intros [= _ <-]. eapply scan_file_matches; [|exact Hentry]. by eapply IH.
Qed.

Lemma for_each_echo (ms : list message) (w : world) :
  for_each ms (λ m _, echo m) tt w
  = (Ok tt, World (fs w) (trace w ++ (Echo <$> ms)) (local_index w)).
Proof.
  revert w. induction ms as [|m ms IH]; intros [fs0 tr idx]; simpl.
  - munfold. by rewrite app_nil_r.
  - munfold. simpl. rewrite IH. wsimpl. done.
Qed.

(** A scan that returns leaves the files alone and stores the index the
    listing describes. *)
Lemma index_existing_files_Ok (E : Env) (directory : Path) (w w' : world) :
  index_existing_files E directory w = (Ok tt, w') →
  fs w' = fs w ∧
  (∃ evs, trace w' = trace w ++ evs ∧ Forall is_echo evs) ∧
  index_matches (listing E directory (fs w)) (local_index w').
Proof.
  unfold index_existing_files. munfold.
  destruct (scan_files (listing E directory (fs w)) scan_init) as [ms [st|e]] eqn:Hscan;
    rewrite for_each_echo; [|done].
  simpl. intros [= <-]. simpl. split; [done|]. split.
  - eexists. rewrite <- app_assoc. split; [done|].
    apply Forall_app. split; [|by repeat constructor].
    apply Forall_fmap, Forall_true. done.
  - by eapply scan_files_matches.
Qed.

Lemma index_existing_files_total (E : Env) (directory : Path) (w : world) :
  (∃ ms st, scan_files (listing E directory (fs w)) scan_init = (ms, Ok st)) →
  ∃ w', index_existing_files E directory w = (Ok tt, w').
Proof.
  intros (ms & st & Hscan). unfold index_existing_files. munfold.
  rewrite Hscan, for_each_echo. simpl. by eexists.
Qed.

Lemma index_existing_files_scanned (E : Env) (directory : Path) (w w' : world) :
  index_existing_files E directory w = (Ok tt, w') →
  ∃ ms st, scan_files (listing E directory (fs w)) scan_init = (ms, Ok st).
Proof.
  unfold index_existing_files. munfold.
  destruct (scan_files (listing E directory (fs w)) scan_init) as [ms [st|e]] eqn:Hscan;
    rewrite for_each_echo; [by eauto | done].
Qed.

Lemma elem_of_listing (E : Env) (directory : Path) (m : gmap Path fsnode)
    (p : Path) (f : fsnode) :
  rglob_ok E →
  (p, f) ∈ listing E directory m ↔ m !! p = Some f ∧ below directory p.
Proof.
  intros Hok. destruct (Hok directory m) as [_ Hin]. unfold listing.
  rewrite list_elem_of_omap. split.
  - intros (q & Hq & Hf). destruct (m !! q) as [g|] eqn:Hg; [|done].
    injection Hf as <- <-. apply Hin in Hq as [_ ?]. done.
  - intros [Hf Hbelow]. exists p. split; [apply Hin; eauto|]. by rewrite Hf.
Qed.

(** C10 (stray files are indexed as media): after a scan that returns,
    every regular file below the output directory whose name does not end
    in .md, wherever it lies, has a LocalMedia record in the index under the
    name of its immediate parent directory and the identifier recovered from
    its name; the record's path is a regular non-markdown file with this
    parent name and identifier (the file itself unless a later one shares
    them); the index entry has no path when no note file claims that name;
    and when the name is no remote identifier the entry is among the
    local-only notes of the orphan detection. *)
Theorem stray_files_indexed_as_media (E : Env) (directory : Path) (w w' : world)
    (file : Path) (readable : bool) (c : content) :
  rglob_ok E →
  index_existing_files E directory w = (Ok tt, w') →
  fs w !! file = Some (Regular readable c) →
  below directory file →
  Str.endswith (name file) ".md" = false →
  ∃ local_note record,
    local_index w' !! name (parent file) = Some local_note ∧
    local_media local_note !! media_id_of_name (name file) = Some record ∧
    google_keep_note_id record = name (parent file) ∧
    google_keep_media_id record = media_id_of_name (name file) ∧
    (∃ f, fs w !! media_path record = Some f ∧ below directory (media_path record) ∧
          is_media_of (name (parent file)) (media_path record, f) = true ∧
          media_id_of_name (name (media_path record)) = media_id_of_name (name file)) ∧
    ((∀ p f, fs w !! p = Some f → below directory p →
             claims (name (parent file)) (p, f) = None) →
     path local_note = None) ∧
    (∀ keep_notes : list (string * Note),
       name (parent file) ∉ keep_notes.*1 →
       name (parent file) ∈ local_only_note_ids (local_index w') keep_notes).
Proof.
  intros Hok Hscan Hfile Hbelow Hmd.
  apply index_existing_files_Ok in Hscan as (_ & _ & Hindex).
  set (l := listing E directory (fs w)) in *.
  set (k := name (parent file)) in *.
  set (mid := media_id_of_name (name file)) in *.
  assert ((file, Regular readable c) ∈ l) as Hin by by apply elem_of_listing.
  assert (is_media_of k (file, Regular readable c) = true) as Hmedia_of.
  { unfold is_media_of. simpl. rewrite Hmd. simpl. by rewrite bool_decide_eq_true_2. }
  assert ((file, Regular readable c) ∈ media_entries l k) as Hentries.
  { unfold media_entries. apply list_elem_of_filter. by rewrite Hmedia_of. }
  assert (file ∈ media_files l k mid) as Hfiles.
  { unfold media_files.
    apply (list_elem_of_fmap_2 fst _ (file, Regular readable c)).
    apply list_elem_of_filter. done. }
  specialize (Hindex k). destruct (local_index w' !! k) as [note|] eqn:Hk; simpl in Hindex.
  2:{ destruct Hindex as [_ Hnone]. rewrite Hnone in Hentries. by inversion Hentries. }
  destruct Hindex as (_ & Hpath & _ & Hlm & _).
  destruct (last (media_files l k mid)) as [p|] eqn:Hlast.
  2:{ apply last_None in Hlast. rewrite Hlast in Hfiles. by inversion Hfiles. }
  exists note. eexists. split; [done|]. split; [by rewrite Hlm, Hlast|]. simpl.
  split; [done|]. split; [done|]. split; [|split].
  - apply last_Some_elem_of in Hlast. unfold media_files in Hlast.
    apply list_elem_of_fmap in Hlast as ([q f] & -> & Hq).
    apply list_elem_of_filter in Hq as [Hmid Hq].
    unfold media_entries in Hq. apply list_elem_of_filter in Hq as [Hq Hql].
    apply elem_of_listing in Hql as [? ?]; [|done].
    exists f. simpl in *. split; [done|]. split; [done|]. split; [|done].
    by apply Is_true_true.
  - intros Hnoclaim. rewrite Hpath.
    destruct (note_files l k) as [|x nf] eqn:Hnf; [done|].
    assert (x ∈ note_files l k) as Hx by (rewrite Hnf; left).
    unfold note_files in Hx. apply list_elem_of_omap in Hx as ([q f] & Hq & Hclaim).
    apply elem_of_listing in Hq as [? ?]; [|done].
    rewrite (Hnoclaim q f) in Hclaim; done.
  - intros keep_notes Hremote. unfold local_only_note_ids.
    apply elem_of_difference. split.
    + apply elem_of_dom. by rewrite Hk.
    + by rewrite elem_of_list_to_set.
Qed.

Lemma demo_rglob_ok : rglob_ok Demo.env.
Proof.
  intros root m. simpl. unfold Demo.entries_below. split.
  - apply NoDup_filter, NoDup_fst_map_to_list.
  - intros p. rewrite list_elem_of_filter, list_elem_of_fmap. split.
    + intros [Hbelow ([q f] & -> & Hin)]. apply elem_of_map_to_list in Hin.
      simpl in *. eauto.
    + intros [[f Hf] Hbelow]. split; [done|]. exists (p, f). split; [done|].
      by apply elem_of_map_to_list.
Qed.

Lemma stray_files_indexed_as_media_witness :
  ∃ local_note record,
    local_index (index_existing_files Demo.env ["out"] stray_world).2 !! "out"
    = Some local_note ∧
    local_media local_note !! "readme.txt" = Some record ∧
    google_keep_note_id record = "out" ∧
    google_keep_media_id record = "readme.txt" ∧
    path local_note = None ∧
    "out" ∈ local_only_note_ids
              (local_index (index_existing_files Demo.env ["out"] stray_world).2)
              [("N", Demo.note "N" "Todo" 20240101 100)].
Proof.
  destruct (stray_files_indexed_as_media Demo.env ["out"] stray_world
              (index_existing_files Demo.env ["out"] stray_world).2
              ["out"; "readme.txt"] true (Plain "hello"))
    as (local_note & record & Hnote & Hrecord & Hnid & Hmid & _ & Hpath & Horphan).
  - exact demo_rglob_ok.
  - reflexivity.
  - reflexivity.
  - split; [by exists ["readme.txt"] | discriminate].
  - reflexivity.
  - exists local_note, record. split; [exact Hnote|]. split; [exact Hrecord|].
    split; [exact Hnid|]. split; [exact Hmid|]. split.
    + apply Hpath. intros p f Hp _. unfold stray_world in Hp. simpl in Hp.
      apply lookup_singleton_Some in Hp as [<- <-]. reflexivity.
    + apply Horphan. simpl. intros Hin. apply list_elem_of_singleton in Hin. discriminate.
Defined.

(** ** The index after the scan *)

Lemma pi_ret {A} (a : A) : preserves_index (mret a).
Proof. done. Qed.

Lemma pi_raise {A} (e : exn) : preserves_index (raise (A := A) e).
Proof. done. Qed.

Lemma pi_get_world : preserves_index get_world.
Proof. done. Qed.

Lemma pi_emit (e : event) : preserves_index (emit e).
Proof. done. Qed.

Lemma pi_echo (m : message) : preserves_index (echo m).
Proof. done. Qed.

Lemma pi_set_fs (m : gmap Path fsnode) : preserves_index (set_fs m).
Proof. done. Qed.

Lemma pi_bind {A B} (m : M A) (k : A → M B) :
  preserves_index m → (∀ a, preserves_index (k a)) → preserves_index (m ≫= k).
Proof.
  intros Hm Hk w. munfold. specialize (Hm w).
  destruct (m w) as [[a|e] w1]; simpl in *; [|done].
  by rewrite Hk.
Qed.

Lemma pi_try_except {A} (m : M A) (h : exn → M A) :
  preserves_index m → (∀ e, preserves_index (h e)) → preserves_index (try_except m h).
Proof.
  intros Hm Hh w. unfold try_except. specialize (Hm w).
  destruct (m w) as [[a|e] w1]; simpl in *; [done|].
  by rewrite Hh.
Qed.

Lemma pi_for_each {A S} (l : list A) (body : A → S → M S) (acc : S) :
  (∀ x s, preserves_index (body x s)) → preserves_index (for_each l body acc).
Proof.
  intros Hbody. revert acc. induction l as [|x l IH]; intros acc; simpl.
  - apply pi_ret.
  - apply pi_bind; [apply Hbody | apply IH].
Qed.

Create HintDb pi discriminated.

Ltac pi_step :=
  first
    [ solve [auto 1 with pi nocore]
    | apply pi_ret | apply pi_raise | apply pi_get_world | apply pi_emit
    | apply pi_echo | apply pi_set_fs
    | apply pi_bind; [|intros ?]
    | apply pi_try_except; [|intros ?]
    | apply pi_for_each; intros ? ?
    | match goal with
      | |- preserves_index (match ?x with _ => _ end) => destruct x
      | |- preserves_index (if ?b then _ else _) => destruct b
      end ].

Ltac pi_solve := repeat pi_step.

Lemma pi_unlink (E : Env) (p : Path) : preserves_index (unlink E p).
Proof. unfold unlink. pi_solve. Qed.

Lemma pi_rename (E : Env) (src dst : Path) : preserves_index (rename E src dst).
Proof. unfold rename. pi_solve. Qed.

Lemma pi_write_file (E : Env) (p : Path) (c : content) : preserves_index (write_file E p c).
Proof. unfold write_file. pi_solve. Qed.

Lemma pi_mkdir_exist_ok (E : Env) (p : Path) : preserves_index (mkdir_exist_ok E p).
Proof. unfold mkdir_exist_ok. pi_solve. Qed.

#[local] Hint Resolve pi_unlink pi_rename pi_write_file pi_mkdir_exist_ok : pi.

Lemma pi_download_media (E : Env) (note : Note) (mediapath : Path) (skip_existing : bool) :
  preserves_index (download_media E note mediapath skip_existing).
Proof.
  unfold download_media. apply pi_for_each. intros media [ret0 n].
  unfold download_one. pi_solve.
Qed.

Lemma pi_try_rename_note (E : Env) (note : LocalNote) (target : Path) :
  preserves_index (try_rename_note E note target).
Proof. unfold try_rename_note. pi_solve. Qed.

Lemma pi_build_note_unique_path (E : Env) (notepath : Path) (note : Note)
    (date_format : string) :
  preserves_index (build_note_unique_path E notepath note date_format).
Proof. unfold build_note_unique_path, dedupe. pi_solve. Qed.

Lemma pi_delete_local_only_files (E : Env) (keep_notes : list (string * Note))
    (delete_local : bool) :
  preserves_index (delete_local_only_files E keep_notes delete_local).
Proof. unfold delete_local_only_files, delete_note, delete_media. pi_solve. Qed.

#[local] Hint Resolve pi_download_media pi_try_rename_note pi_build_note_unique_path
  pi_delete_local_only_files : pi.

Lemma pi_write_note (E : Env) (cfg : Config) (mediapath : Path) (note : Note)
    (target : Path) (c : counters) :
  preserves_index (write_note E cfg mediapath note target c).
Proof. unfold write_note. pi_solve. Qed.

#[local] Hint Resolve pi_write_note : pi.

Lemma pi_process_note (E : Env) (cfg : Config) (notepath mediapath : Path)
    (note : Note) (c : counters) :
  preserves_index (process_note E cfg notepath mediapath note c).
Proof. unfold process_note. pi_solve. Qed.

(** C9, as amended (the index is fixed after the scan): the index is built
    by the initial scan and no later step writes to it: the rename
    reconciler, the orphan detector and the loop body leave it exactly as
    they found it, whatever they do to the files; so after a rename an entry
    still records the previous path, after a deletion the entry of the
    deleted file is still there, and a new note gets no entry. *)
Theorem index_fixed_after_scan (E : Env) (cfg : Config) (notepath mediapath : Path)
    (note : Note) (c : counters) (keep_notes : list (string * Note)) (delete_local : bool)
    (local_note : LocalNote) (target : Path) (w : world) :
  local_index (try_rename_note E local_note target w).2 = local_index w ∧
  local_index (delete_local_only_files E keep_notes delete_local w).2 = local_index w ∧
  local_index (process_note E cfg notepath mediapath note c w).2 = local_index w.
Proof.
  split; [apply pi_try_rename_note|].
  split; [apply pi_delete_local_only_files | apply pi_process_note].
Qed.

(** The claim C9 as the specification states it fails: the note X is renamed
    from "old title.md" to its canonical name, and afterwards the index
    entry of X still records "old title.md", which is no longer on disk. *)
Lemma index_not_updated_by_rename :
  let w' := (process_note Demo.env (Demo.config true false true) ["out"] ["out"; "media"]
               (Demo.note "X" "Todo" 20240101 100) no_counts skip_world).2 in
  trace w' = [Echo (Renaming ["out"; "old title.md"] ["out"; "20240101 - Todo.md"]);
              Rename ["out"; "old title.md"] ["out"; "20240101 - Todo.md"]] ∧
  fs w' !! ["out"; "old title.md"] = None ∧
  is_Some (fs w' !! ["out"; "20240101 - Todo.md"]) ∧
  local_index w' !! "X" ≫= path = Some ["out"; "old title.md"].
Proof. repeat split; try reflexivity. by eexists. Qed.

(** ** Failures in the loop body *)



(** ** Idempotency: what a run leaves behind *)

Lemma bind_Ok {A B} (m : M A) (k : A → M B) (w w' : world) (b : B) :
  (m ≫= k) w = (Ok b, w') → ∃ a w1, m w = (Ok a, w1) ∧ k a w1 = (Ok b, w').
Proof.
  munfold. destruct (m w) as [[a|e] w1]; [|done]. intros H. eauto.
Qed.

Lemma for_each_Ok_cons {A S} (x : A) (l : list A) (body : A → S → M S) (acc acc' : S)
    (w w' : world) :
  for_each (x :: l) body acc w = (Ok acc', w') →
  ∃ acc1 w1, body x acc w = (Ok acc1, w1) ∧ for_each l body acc1 w1 = (Ok acc', w').
Proof. simpl. apply bind_Ok. Qed.

Lemma harmless_refl (P : Path → Prop) (m : gmap Path fsnode) : harmless P m m.
Proof. intros q. by left. Qed.

Lemma harmless_trans (P : Path → Prop) (m1 m2 m3 : gmap Path fsnode) :
  harmless P m1 m2 → harmless P m2 m3 → harmless P m1 m3.
Proof.
  intros H12 H23 q. destruct (H12 q) as [E1|[(? & N1 & D1)|(? & F1)]],
    (H23 q) as [E2|[(? & N2 & D2)|(? & F2)]]; try (right; right; by eauto).
  - left. congruence.
  - right. left. split; [done|]. split; congruence.
  - right. left. split; [done|]. split; congruence.
  - congruence.
  - right. right. split; [done|]. destruct F1 as (r & c & F1). exists r, c. congruence.
  - destruct F1 as (r & c & F1). congruence.
Qed.

Lemma harmless_weaken (P Q : Path → Prop) (m m' : gmap Path fsnode) :
  (∀ q, P q → Q q) → harmless P m m' → harmless Q m m'.
Proof.
  intros HPQ H q. destruct (H q) as [?|[(? & ? & ?)|?]]; auto.
Qed.

(** Regular files named *.md are the same on both sides. *)
Lemma harmless_md (P : Path → Prop) (m m' : gmap Path fsnode) (q : Path) (f : fsnode) :
  harmless P m m' → is_file f = true → Str.endswith (name q) ".md" = true →
  m' !! q = Some f ↔ m !! q = Some f.
Proof.
  intros H Hf Hmd. destruct (H q) as [->|[(_ & Hn & Hd)|(Hnmd & _)]]; [done| |congruence].
  rewrite Hn, Hd. split; [|done]. intros [= <-]. done.
Qed.

Lemma harmless_is_Some (P : Path → Prop) (m m' : gmap Path fsnode) (q : Path) :
  harmless P m m' → is_Some (m !! q) → is_Some (m' !! q).
Proof.
  intros H Hq. destruct (H q) as [->|[(_ & Hn & Hd)|(_ & r & c & ->)]]; [done| |done].
  by rewrite Hd.
Qed.

Lemma mkdir_exist_ok_Ok (E : Env) (p : Path) (w w' : world) :
  mkdir_exist_ok E p w = (Ok tt, w') →
  harmless (λ q, q = p) (fs w) (fs w') ∧ fs w' !! p = Some Directory.
Proof.
  unfold mkdir_exist_ok. munfold.
  destruct (fs w !! p) as [[|r c]|] eqn:Hp; [| done |].
  - intros [= <-]. split; [apply harmless_refl | done].
  - destruct (mkdir_denied E p); [done|]. intros [= <-]. simpl. split.
    + intros q. destruct (decide (q = p)) as [->|Hne].
      * right. left. by rewrite lookup_insert_eq.
      * left. by rewrite lookup_insert_ne.
    + by rewrite lookup_insert_eq.
Qed.

Lemma write_file_Ok (E : Env) (p : Path) (c : content) (w w' : world) :
  write_file E p c w = (Ok tt, w') →
  ∃ r, fs w' = <[p := Regular r c]> (fs w) ∧
       (fs w !! p = None → r = true) ∧
       (∀ r0 c0, fs w !! p = Some (Regular r0 c0) → r = r0).
Proof.
  unfold write_file. munfold. destruct (write_denied E p); [done|].
  destruct (fs w !! p) as [[|r0 c0]|] eqn:Hp; [done| |].
  - intros [= <-]. exists r0. simpl. split; [done|]. split; [done|]. by intros ? ? [= -> _].
  - intros [= <-]. exists true. simpl. done.
Qed.

Lemma below_joinpath (p : Path) (x : string) : below p (joinpath p x).
Proof.
  split; [by apply prefix_app_r|]. unfold joinpath. intros H.
  apply (f_equal length) in H. rewrite length_app in H. simpl in H. lia.
Qed.

Lemma below_trans (p q r : Path) : below p q → below q r → below p r.
Proof.
  intros [Hpq Hne1] [Hqr Hne2]. split; [by etrans|].
  intros ->. apply Hne1. by apply (anti_symm prefix).
Qed.

Lemma harmless_insert_media (P : Path → Prop) (m : gmap Path fsnode) (q : Path)
    (r : bool) (c : content) :
  Str.endswith (name q) ".md" = false → harmless P m (<[q := Regular r c]> m).
Proof.
  intros Hq q'. destruct (decide (q' = q)) as [->|Hne].
  - right. right. split; [done|]. exists r, c. by rewrite lookup_insert_eq.
  - left. by rewrite lookup_insert_ne.
Qed.

(** Downloading one medium creates at most the directory of the note below
    the media directory and the media file in it. *)
Lemma download_one_Ok (E : Env) (note : Note) (mediapath : Path) (skip_existing : bool)
    (media : Media) (acc acc' : list Path * nat) (w w' : world) :
  Str.endswith (media_file_name E media) ".md" = false →
  download_one E note mediapath skip_existing media acc w = (Ok acc', w') →
  harmless (below mediapath) (fs w) (fs w').
Proof.
  intros Hmd. unfold download_one. destruct acc as [ret0 n].
  intros H. apply bind_Ok in H as ([] & w1 & Hmk & H).
  apply mkdir_exist_ok_Ok in Hmk as [Hmk _].
  eapply harmless_trans.
  { eapply harmless_weaken; [|exact Hmk]. intros q ->. apply below_joinpath. }
  clear Hmk. munfold. simpl in H.
  destruct (skip_existing && _).
  - injection H as _ <-. apply harmless_refl.
  - destruct (fetch_fails E (note_id note) (media_id media)); [done|]. simpl in H.
    match type of H with
    | context [write_file E ?q ?c ?w0] =>
        destruct (write_file E q c w0) as [[[]|e] w2] eqn:Hw; [|done]
    end.
    injection H as _ <-. apply write_file_Ok in Hw as (r & -> & _). simpl.
    apply harmless_insert_media. by rewrite name_joinpath.
Qed.

Lemma download_media_Ok (E : Env) (note : Note) (mediapath : Path) (skip_existing : bool)
    (r : list Path * nat) (w w' : world) :
  Forall (λ media, Str.endswith (media_file_name E media) ".md" = false)
    (all_note_media note) →
  download_media E note mediapath skip_existing w = (Ok r, w') →
  harmless (below mediapath) (fs w) (fs w').
Proof.
  unfold download_media. generalize (@nil Path, 0).
  revert w. induction (all_note_media note) as [|media l IH]; intros w acc Hl H.
  - injection H as _ <-. apply harmless_refl.
  - apply for_each_Ok_cons in H as (acc1 & w1 & Hone & H).
    inversion Hl as [|? ? Hmedia Hl']; subst.
    eapply harmless_trans; [by eapply download_one_Ok | by eapply IH].
Qed.

Lemma claims_Some (k : string) (p : Path) (f : fsnode) (u : Z) :
  claims k (p, f) = Some u ↔
  is_file f = true ∧ Str.endswith (name p) ".md" = true ∧
  ∃ metadata, frontmatter_load f = Ok metadata ∧
              Str.truthy (md_google_keep_id metadata) = Some k ∧
              md_updated metadata = Some u.
Proof.
  unfold claims. simpl. destruct (is_file f), (Str.endswith (name p) ".md"); simpl;
    try (split; [done | by intros (? & ? & _)]).
  destruct (frontmatter_load f) as [metadata|e].
  - case_bool_decide as Hk.
    + split; [by eauto 10|]. by intros (_ & _ & md & [= <-] & _ & ?).
    + split; [done|]. intros (_ & _ & md & [= <-] & ? & _). done.
  - split; [done|]. by intros (_ & _ & md & ? & _).
Qed.

Lemma claimant_harmless (P : Path → Prop) (dir : Path) (m m' : gmap Path fsnode)
    (k : string) (p : Path) (u : Z) :
  harmless P m m' → claimant dir m' k p u ↔ claimant dir m k p u.
Proof.
  intros H. unfold claimant. split; intros (f & Hf & Hbelow & Hclaim);
    exists f; (split; [|done]);
    apply claims_Some in Hclaim as Hc; destruct Hc as (Hfile & Hmd & _);
    by eapply (harmless_md P m m' p f).
Qed.

Lemma unique_claims_harmless (P : Path → Prop) (dir : Path) (m m' : gmap Path fsnode) :
  harmless P m m' → unique_claims dir m → unique_claims dir m'.
Proof.
  intros H Hu k p1 p2 u1 u2 H1 H2.
  apply (claimant_harmless P dir m m') in H1, H2; [|done..]. by eapply Hu.
Qed.

Lemma all_scannable_harmless (P : Path → Prop) (dir : Path) (m m' : gmap Path fsnode) :
  harmless P m m' → all_scannable dir m → all_scannable dir m'.
Proof.
  intros H Hs p f Hf Hbelow Hfile Hmd. simpl in *.
  apply (harmless_md P m m' p f) in Hf; [|done..]. by apply (Hs p f).
Qed.

Lemma index_agrees_harmless (P : Path → Prop) (dir : Path) (m m' : gmap Path fsnode)
    (index : gmap string LocalNote) (k : string) :
  harmless P m m' → index_agrees dir m index k → index_agrees dir m' index k.
Proof.
  intros H. unfold index_agrees.
  destruct (index !! k) as [note|]; [destruct (path note)|].
  - intros (u & Hc & ?). exists u. split; [|done].
    by apply (claimant_harmless P dir m m' k p u H).
  - intros [? Hnone]. split; [done|]. intros p u Hc. apply (Hnone p u).
    by apply (claimant_harmless P dir m m' k p u H).
  - intros Hnone p u Hc. apply (Hnone p u).
    by apply (claimant_harmless P dir m m' k p u H).
Qed.

(** A scan that returns has met scannable entries only, and a listing of
    scannable entries is scanned to the end. *)
Lemma scan_file_Ok_scannable (st st' : scan_state) (entry : Path * fsnode)
    (ms : list message) :
  scan_file st entry = (ms, Ok st') → scannable entry.
Proof.
  destruct entry as [file f]. unfold scan_file, scannable. simpl.
  intros H Hfile Hmd. rewrite Hfile, Hmd in H. simpl in H.
  unfold scan_markdown in H.
  destruct (frontmatter_load f) as [metadata|[]]; try done.
  destruct (Str.truthy (md_google_keep_id metadata)); [|by left].
  destruct (md_updated metadata); [by right | done].
Qed.

Lemma scan_files_Ok_scannable (l : list (Path * fsnode)) (st st' : scan_state)
    (ms : list message) :
  scan_files l st = (ms, Ok st') → Forall scannable l.
Proof.
  revert st ms. induction l as [|entry l IH]; intros st ms H; [done|].
  simpl in H. destruct (scan_file st entry) as [ms1 [st1|e]] eqn:Hentry; [|done].
  destruct (scan_files l st1) as [ms2 r] eqn:Hl. injection H as _ ->.
  constructor; [by eapply scan_file_Ok_scannable | by eapply IH].
Qed.

Lemma scan_file_scannable (st : scan_state) (entry : Path * fsnode) :
  scannable entry → ∃ ms st', scan_file st entry = (ms, Ok st').
Proof.
  destruct entry as [file f]. unfold scan_file, scannable. simpl. intros H.
  destruct (is_file f); simpl; [|by eauto].
  destruct (Str.endswith (name file) ".md"); [|by eauto].
  specialize (H eq_refl eq_refl). unfold scan_markdown.
  destruct (frontmatter_load f) as [metadata|e].
  - destruct H as [->|[u ->]]; [by eauto|].
    destruct (Str.truthy (md_google_keep_id metadata)); by eauto.
  - subst e. by eauto.
Qed.

Lemma scan_files_scannable (l : list (Path * fsnode)) (st : scan_state) :
  Forall scannable l → ∃ ms st', scan_files l st = (ms, Ok st').
Proof.
  revert st. induction l as [|entry l IH]; intros st Hl; simpl; [by eauto|].
  inversion Hl as [|? ? Hentry Hl']; subst.
  destruct (scan_file_scannable st entry Hentry) as (ms1 & st1 & ->).
  destruct (IH st1 Hl') as (ms2 & st2 & ->). by eauto.
Qed.

Lemma elem_of_note_files (E : Env) (dir : Path) (m : gmap Path fsnode) (k : string)
    (p : Path) (u : Z) :
  rglob_ok E →
  (p, u) ∈ note_files (listing E dir m) k ↔ claimant dir m k p u.
Proof.
  intros Hok. unfold note_files, claimant. rewrite list_elem_of_omap. split.
  - intros ([q f] & Hin & Hclaim). simpl in Hclaim.
    destruct (claims k (q, f)) as [u'|] eqn:Hc; [|done]. injection Hclaim as <- <-.
    apply elem_of_listing in Hin as [? ?]; [|done]. eauto.
  - intros (f & Hf & Hbelow & Hclaim). exists (p, f). split.
    + by apply elem_of_listing.
    + simpl. by rewrite Hclaim.
Qed.

Lemma claimant_updated (dir : Path) (m : gmap Path fsnode) (k : string) (p : Path)
    (u1 u2 : Z) :
  claimant dir m k p u1 → claimant dir m k p u2 → u1 = u2.
Proof. intros (f1 & Hf1 & _ & H1) (f2 & Hf2 & _ & H2). congruence. Qed.

(** After a scan every index entry agrees with the files. *)
Lemma index_matches_agrees (E : Env) (dir : Path) (m : gmap Path fsnode)
    (index : gmap string LocalNote) (k : string) :
  rglob_ok E → index_matches (listing E dir m) index → index_agrees dir m index k.
Proof.
  intros Hok Hindex. specialize (Hindex k). unfold index_agrees.
  destruct (index !! k) as [note|]; simpl in Hindex.
  - destruct Hindex as (_ & Hpath & Hts & _).
    destruct (last (note_files (listing E dir m) k)) as [[p u]|] eqn:Hlast;
      simpl in *; rewrite Hpath.
    + exists u. split; [|done]. apply last_Some_elem_of in Hlast.
      by apply (elem_of_note_files E) in Hlast.
    + split; [done|]. intros p u Hc. apply (elem_of_note_files E) in Hc; [|done].
      apply last_None in Hlast. rewrite Hlast in Hc. by inversion Hc.
  - destruct Hindex as [Hnone _]. intros p u Hc.
    apply (elem_of_note_files E) in Hc; [|done]. rewrite Hnone in Hc. by inversion Hc.
Qed.

(** A note whose only claimant carries the remote timestamp is found by the
    scan with exactly this timestamp. *)
Lemma index_matches_unchanged (E : Env) (dir : Path) (m : gmap Path fsnode)
    (index : gmap string LocalNote) (k : string) (p : Path) (u : Z) :
  rglob_ok E → index_matches (listing E dir m) index → unique_claims dir m →
  claimant dir m k p u →
  ∃ note, index !! k = Some note ∧ timestamp_updated note = Some u.
Proof.
  intros Hok Hindex Hunique Hc.
  pose proof (index_matches_agrees E dir m index k Hok Hindex) as Hagree.
  specialize (Hindex k). unfold index_agrees in Hagree.
  destruct (index !! k) as [note|]; [|by destruct (Hagree p u)].
  exists note. split; [done|].
  destruct (path note) as [q|].
  - destruct Hagree as (u' & Hc' & ->). f_equal.
    assert (q = p) as -> by by eapply Hunique. by eapply claimant_updated.
  - destruct Hagree as [_ Hnone]. by destruct (Hnone p u).
Qed.

Lemma dedupe_filename_md (stem : string) (note : Note) (i : nat) :
  Str.endswith (dedupe_filename stem note i) ".md" = true.
Proof.
  unfold dedupe_filename. rewrite <- !string_app_assoc. apply endswith_app.
Qed.

(** The loop body with renaming disabled: skip, or write at the indexed path
    or else at a fresh path. *)
Lemma process_note_no_rename (E : Env) (cfg : Config) (dir mediapath : Path)
    (note : Note) (c : counters) (w : world) :
  rename_local cfg = false →
  match local_index w !! note_id note with
  | Some local_note =>
      if bool_decide (timestamp_updated local_note = Some (note_updated note)) then
        ∃ evs, Forall is_echo evs ∧
          process_note E cfg dir mediapath note c w
          = (Ok (count_skipped c), World (fs w) (trace w ++ evs) (local_index w))
      else
        ∃ evs target, Forall is_echo evs ∧ target_of dir w note target ∧
          process_note E cfg dir mediapath note c w
          = write_note E cfg mediapath note target (count_updated c)
              (World (fs w) (trace w ++ evs) (local_index w))
  | None =>
      ∃ evs target, Forall is_echo evs ∧ target_of dir w note target ∧
        process_note E cfg dir mediapath note c w
        = write_note E cfg mediapath note target (count_new c)
            (World (fs w) (trace w ++ evs) (local_index w))
  end.
Proof.
  intros Hren. unfold process_note, target_of. munfold. rewrite Hren.
  destruct (local_index w !! note_id note) as [local_note|] eqn:Hidx; simpl.
  - destruct (build_note_unique_path_cases E dir note (date_format cfg) w)
      as (p & evs & Hrun & Hevs & Hp).
    rewrite Hrun. rewrite Hidx in Hp. simpl in Hp.
    destruct (path local_note) as [local_path|] eqn:Hpath; simpl.
    + case_bool_decide.
      * exists evs. done.
      * exists (evs ++ [Echo (UpdatingExistingFile (note_id note))]), local_path.
        split; [apply Forall_app; split; [done | by repeat constructor]|].
        split; [done|]. by rewrite app_assoc.
    + case_bool_decide.
      * exists evs. done.
      * exists (evs ++ [Echo (UpdatingExistingFile (note_id note))]), p.
        split; [apply Forall_app; split; [done | by repeat constructor]|].
        split; [|by rewrite app_assoc].
        destruct Hp as [[? _]|(_ & Hfree & Hp)]; [done|]. split; [done|].
        destruct Hp as [[_ ->]|[_ (n & _ & -> & _)]].
        -- eexists. split; [done|]. apply endswith_app.
        -- eexists. split; [done|]. apply dedupe_filename_md.
  - destruct (build_note_unique_path_cases E dir note (date_format cfg)
                (World (fs w) (trace w ++ [Echo (DownloadingNewNote (note_id note))])
                   (local_index w)))
      as (p & evs & Hrun & Hevs & Hp).
    rewrite Hrun. simpl in *. rewrite Hidx in Hp. simpl in Hp.
    exists ([Echo (DownloadingNewNote (note_id note))] ++ evs), p.
    split; [apply Forall_app; split; [by repeat constructor | done]|].
    split; [|by rewrite app_assoc].
    destruct Hp as [[? _]|(_ & Hfree & Hp)]; [done|]. split; [done|].
    destruct Hp as [[_ ->]|[_ (n & _ & -> & _)]].
    + eexists. split; [done|]. apply endswith_app.
    + eexists. split; [done|]. apply dedupe_filename_md.
Qed.

Lemma write_note_Ok (E : Env) (cfg : Config) (mediapath : Path) (note : Note)
    (target : Path) (c c' : counters) (w w' : world) :
  header cfg = true →
  Forall (λ media, Str.endswith (media_file_name E media) ".md" = false)
    (all_note_media note) →
  write_note E cfg mediapath note target c w = (Ok c', w') →
  ∃ m3 r markdown,
    harmless (below mediapath) (fs w) m3 ∧
    fs w' = <[target := Regular r (build_frontmatter note markdown)]> m3 ∧
    (m3 !! target = None → r = true) ∧
    (∀ r0 c0, m3 !! target = Some (Regular r0 c0) → r = r0) ∧
    skipped_notes c' = skipped_notes c ∧ updated_notes c' = updated_notes c ∧
    new_notes c' = new_notes c.
Proof.
  intros Hheader Hmedia. unfold write_note. rewrite Hheader. intros H.
  apply bind_Ok in H as ([images n] & w3 & Hdl & H).
  apply bind_Ok in H as ([] & w4 & Hw & H). injection H as <- <-.
  apply download_media_Ok in Hdl; [|done].
  apply write_file_Ok in Hw as (r & Hfs & Hnew & Hold).
  exists (fs w3), r. eexists. split; [done|]. split; [exact Hfs|]. done.
Qed.

(** The effect on the claims of writing the note [id] at [target]. *)
Lemma note_written (dir : Path) (P : Path → Prop) (m m3 : gmap Path fsnode)
    (target : Path) (id : string) (updated : Z) (markdown : string) :
  let m' := <[target := Regular true
                (Frontmatter (Metadata (Some id) (Some updated)) markdown)]> m3 in
  harmless P m m3 →
  id ≠ "" → below dir target → Str.endswith (name target) ".md" = true →
  (∀ k u, claimant dir m k target u → k = id) →
  (∀ p u, claimant dir m id p u → p = target) →
  all_scannable dir m → unique_claims dir m →
  all_scannable dir m' ∧ unique_claims dir m' ∧
  claimant dir m' id target updated ∧
  (∀ k p u, k ≠ id → claimant dir m' k p u ↔ claimant dir m k p u) ∧
  (∀ p, is_Some (m !! p) → is_Some (m' !! p)).
Proof.
  intros m' Hharm Hid Hbelow Hmd Honly Hsole Hscan Hunique.
  assert (Str.truthy (Some id) = Some id) as Htruthy by by destruct id.
  assert (claimant dir m' id target updated) as Hnew.
  { eexists. split; [apply lookup_insert_eq|]. split; [done|].
    apply claims_Some. simpl. split; [done|]. split; [done|].
    eexists. split; [done|]. simpl. done. }
  assert (∀ k u, claimant dir m' k target u → k = id) as Honly'.
  { intros k u (f & Hf & _ & Hc). unfold m' in Hf. rewrite lookup_insert_eq in Hf.
    injection Hf as <-. apply claims_Some in Hc as (_ & _ & md & [= <-] & Hk & _).
    cbn [md_google_keep_id] in Hk. congruence. }
  assert (∀ k p u, p ≠ target → claimant dir m' k p u ↔ claimant dir m k p u) as Hother.
  { intros k p u Hne. rewrite <- (claimant_harmless P dir m m3 k p u Hharm).
    unfold claimant, m'. by rewrite lookup_insert_ne. }
  split; [|split; [|split; [done|split]]].
  - intros p f Hf Hb. destruct (decide (p = target)) as [->|Hne].
    + unfold m' in Hf. rewrite lookup_insert_eq in Hf. injection Hf as <-.
      intros _ _. simpl. right. by eexists.
    + unfold m' in Hf. rewrite lookup_insert_ne in Hf by done.
      by apply (all_scannable_harmless P dir m m3 Hharm Hscan).
  - intros k p1 p2 u1 u2 H1 H2.
    destruct (decide (p1 = target)) as [->|Hne1], (decide (p2 = target)) as [->|Hne2].
    + done.
    + apply Honly' in H1 as ->. apply Hother in H2; [|done]. symmetry. by eapply Hsole.
    + apply Honly' in H2 as ->. apply Hother in H1; [|done]. by eapply Hsole.
    + apply Hother in H1, H2; [|done..]. by eapply Hunique.
  - intros k p u Hk. destruct (decide (p = target)) as [->|Hne]; [|by apply Hother].
    split; intros Hc; [apply Honly' in Hc | apply Honly in Hc]; done.
  - intros p Hp. unfold m'. destruct (decide (p = target)) as [->|Hne].
    + by rewrite lookup_insert_eq.
    + rewrite lookup_insert_ne by done. by eapply harmless_is_Some.
Qed.

Lemma not_below_media (dir : Path) (x : string) :
  Str.endswith x ".md" = true → ¬ below (joinpath dir "media") (joinpath dir x).
Proof.
  intros Hx [[k Hk] _]. unfold joinpath in Hk. rewrite <- app_assoc in Hk.
  apply app_inv_head in Hk. injection Hk as -> _. done.
Qed.

(** Writing the note at a fresh path. *)
Lemma fresh_written (dir : Path) (m m3 : gmap Path fsnode) (target : Path) (r : bool)
    (note : Note) (markdown : string) :
  harmless (below (joinpath dir "media")) m m3 →
  (m3 !! target = None → r = true) →
  note_id note ≠ "" →
  fresh_note_path dir m target →
  (∀ p u, ¬ claimant dir m (note_id note) p u) →
  all_scannable dir m → unique_claims dir m →
  run_step dir (note_id note) (note_updated note) m
    (<[target := Regular r (build_frontmatter note markdown)]> m3).
Proof.
  intros Hharm Hnew Hid (Hnone & x & -> & Hx) Hno Hscan Hunique.
  assert (m3 !! joinpath dir x = None) as Hnone3.
  { destruct (Hharm (joinpath dir x)) as [->|[(Hb & _)|(Hnmd & _)]]; [done| |].
    - by apply not_below_media in Hb.
    - rewrite name_joinpath in Hnmd. congruence. }
  rewrite (Hnew Hnone3).
  destruct (note_written dir (below (joinpath dir "media")) m m3 (joinpath dir x)
              (note_id note) (note_updated note) markdown)
    as (? & ? & ? & ? & ?); try done.
  - apply below_joinpath.
  - by rewrite name_joinpath.
  - intros k u (f & Hf & _). congruence.
  - intros p u Hc. by destruct (Hno p u).
  - split; [done|]. split; [done|]. split; [by eexists|]. by split.
Qed.

(** Writing the note over the file that claims it. *)
Lemma own_written (dir : Path) (m m3 : gmap Path fsnode) (target : Path) (r : bool)
    (note : Note) (markdown : string) (u : Z) :
  harmless (below (joinpath dir "media")) m m3 →
  (∀ r0 c0, m3 !! target = Some (Regular r0 c0) → r = r0) →
  note_id note ≠ "" →
  claimant dir m (note_id note) target u →
  all_scannable dir m → unique_claims dir m →
  run_step dir (note_id note) (note_updated note) m
    (<[target := Regular r (build_frontmatter note markdown)]> m3).
Proof.
  intros Hharm Hold Hid Hc Hscan Hunique.
  pose proof Hc as (f & Hf & Hbelow & Hclaim).
  apply claims_Some in Hclaim as (Hfile & Hmd & md & Hload & Hk & _).
  assert (∃ c0, f = Regular true c0) as [c0 ->].
  { destruct f as [|[] c0]; try done. by exists c0. }
  assert (r = true) as ->.
  { apply (Hold true c0).
    by apply (harmless_md (below (joinpath dir "media")) m m3 target (Regular true c0)). }
  destruct (note_written dir (below (joinpath dir "media")) m m3 target
              (note_id note) (note_updated note) markdown)
    as (? & ? & ? & ? & ?); try done.
  - intros k u' (f' & Hf' & _ & Hclaim').
    apply claims_Some in Hclaim' as (_ & _ & md' & Hload' & Hk' & _). congruence.
  - intros p u' Hc'. by eapply Hunique.
  - split; [done|]. split; [done|]. split; [by eexists|]. by split.
Qed.

Lemma process_note_step (E : Env) (cfg : Config) (dir : Path) (note : Note)
    (c c' : counters) (w w' : world) :
  header cfg = true → rename_local cfg = false →
  note_id note ≠ "" → media_not_md E note →
  all_scannable dir (fs w) → unique_claims dir (fs w) →
  index_agrees dir (fs w) (local_index w) (note_id note) →
  process_note E cfg dir (joinpath dir "media") note c w = (Ok c', w') →
  run_step dir (note_id note) (note_updated note) (fs w) (fs w') ∧
  skipped_notes c' + updated_notes c' + new_notes c'
  = skipped_notes c + updated_notes c + new_notes c + 1.
Proof.
  intros Hheader Hren Hid Hmedia Hscan Hunique Hagree H.
  pose proof (process_note_no_rename E cfg dir (joinpath dir "media") note c w Hren) as Hp.
  unfold index_agrees in Hagree. unfold target_of in Hp.
  destruct (local_index w !! note_id note) as [local_note|] eqn:Hidx; simpl in Hp.
  - case_bool_decide as Hts.
    + destruct Hp as (evs & _ & Hrun). rewrite Hrun in H. injection H as <- <-. simpl.
      split; [|lia].
      destruct (path local_note) as [p|].
      * destruct Hagree as (u & Hc & Hu). rewrite Hts in Hu. injection Hu as <-.
        split; [done|]. split; [done|]. split; [by eexists|]. by split.
      * destruct Hagree as [Hnone _]. congruence.
    + destruct Hp as (evs & target & _ & Htarget & Hrun). rewrite Hrun in H.
      apply write_note_Ok in H as (m3 & r & md & Hharm & -> & Hnew & Hold & Hs & Hu & Hn);
        [|done..].
      simpl in *. split; [|lia].
      destruct (path local_note) as [p|].
      * subst target. destruct Hagree as (u & Hc & _). by eapply own_written.
      * destruct Hagree as [_ Hno]. by apply fresh_written.
  - destruct Hp as (evs & target & _ & Htarget & Hrun). rewrite Hrun in H.
    apply write_note_Ok in H as (m3 & r & md & Hharm & -> & Hnew & Hold & Hs & Hu & Hn);
      [|done..].
    simpl in *. split; [|lia]. by apply fresh_written.
Qed.

Lemma index_agrees_other (dir : Path) (m m' : gmap Path fsnode)
    (index : gmap string LocalNote) (k : string) :
  (∀ p u, claimant dir m' k p u ↔ claimant dir m k p u) →
  index_agrees dir m index k → index_agrees dir m' index k.
Proof.
  intros H. unfold index_agrees.
  destruct (index !! k) as [note|]; [destruct (path note)|].
  - intros (u & Hc & ?). exists u. split; [|done]. by apply H.
  - intros [? Hnone]. split; [done|]. intros p u Hc. apply (Hnone p u). by apply H.
  - intros Hnone p u Hc. apply (Hnone p u). by apply H.
Qed.

(** The loop of a run with header, without renaming: afterwards every
    processed note is claimed by a note file that records its remote
    timestamp, and the claims stay unique. *)
Lemma run_loop (E : Env) (cfg : Config) (dir : Path) (todo : list Note)
    (c c' : counters) (w w' : world) :
  header cfg = true → rename_local cfg = false →
  NoDup (note_id <$> todo) →
  Forall (λ note, note_id note ≠ "" ∧ media_not_md E note) todo →
  all_scannable dir (fs w) → unique_claims dir (fs w) →
  (∀ note, note ∈ todo → index_agrees dir (fs w) (local_index w) (note_id note)) →
  for_each todo (process_note E cfg dir (joinpath dir "media")) c w = (Ok c', w') →
  all_scannable dir (fs w') ∧ unique_claims dir (fs w') ∧
  (∀ note, note ∈ todo → ∃ p, claimant dir (fs w') (note_id note) p (note_updated note)) ∧
  (∀ k p u, k ∉ note_id <$> todo → claimant dir (fs w') k p u ↔ claimant dir (fs w) k p u) ∧
  (∀ p, is_Some (fs w !! p) → is_Some (fs w' !! p)) ∧
  skipped_notes c' + updated_notes c' + new_notes c'
  = skipped_notes c + updated_notes c + new_notes c + length todo.
Proof.
  intros Hheader Hren. revert c w.
  induction todo as [|note todo IH]; intros c w Hnodup Hnotes Hscan Hunique Hagree H.
  - injection H as <- <-.
    split; [done|]. split; [done|]. split; [by intros ? ?%elem_of_nil|].
    split; [done|]. split; [done|]. simpl. lia.
  - apply for_each_Ok_cons in H as (c1 & w1 & Hbody & H).
    inversion Hnodup as [|? ? Hnotin Hnodup']; subst.
    inversion Hnotes as [|? ? [Hid Hmedia] Hnotes']; subst.
    pose proof (pi_process_note E cfg dir (joinpath dir "media") note c w) as Hindex.
    rewrite Hbody in Hindex. simpl in Hindex.
    apply process_note_step in Hbody as [(Hscan1 & Hunique1 & Hclaim1 & Hother1 & Hkeys1) Hcount1];
      try done; [|apply Hagree; left].
    apply IH in H as (Hscan' & Hunique' & Hclaim' & Hother' & Hkeys' & Hcount'); try done.
    + split; [done|]. split; [done|]. split; [|split; [|split]].
      * intros note' Hin. apply elem_of_cons in Hin as [->|Hin]; [|by apply Hclaim'].
        destruct Hclaim1 as [p Hp]. exists p. by apply Hother'.
      * intros k p u Hk. apply not_elem_of_cons in Hk as [Hne Hk].
        rewrite Hother' by done. by apply Hother1.
      * intros p Hp. by apply Hkeys', Hkeys1.
      * simpl. lia.
    + intros note' Hin. rewrite Hindex.
      apply (index_agrees_other dir (fs w)); [|apply Hagree; by right].
      intros p u. apply Hother1. intros Heq. apply Hnotin. rewrite <- Heq.
      by apply list_elem_of_fmap_2.
Qed.

(** The loop of a run in which every note is found with its remote
    timestamp: everything is skipped and only echoes happen. *)
Lemma skip_loop (E : Env) (cfg : Config) (dir mediapath : Path) (todo : list Note)
    (c : counters) (w : world) :
  rename_local cfg = false →
  (∀ note, note ∈ todo →
     ∃ local_note, local_index w !! note_id note = Some local_note ∧
                   timestamp_updated local_note = Some (note_updated note)) →
  ∃ evs,
    for_each todo (process_note E cfg dir mediapath) c w
    = (Ok {| skipped_notes := skipped_notes c + length todo;
             updated_notes := updated_notes c; new_notes := new_notes c;
             downloaded_media := downloaded_media c |},
       World (fs w) (trace w ++ evs) (local_index w)) ∧
    Forall is_echo evs.
Proof.
  intros Hren. revert c w. induction todo as [|note todo IH]; intros c w Hfound.
  - exists []. destruct c, w. simpl. munfold. rewrite app_nil_r, Nat.add_0_r. done.
  - destruct (Hfound note) as (local_note & Hidx & Hts); [left|].
    pose proof (process_note_no_rename E cfg dir mediapath note c w Hren) as Hp.
    rewrite Hidx, bool_decide_eq_true_2 in Hp by done.
    destruct Hp as (evs1 & Hevs1 & Hrun1).
    destruct (IH (count_skipped c) (World (fs w) (trace w ++ evs1) (local_index w)))
      as (evs2 & Hrun2 & Hevs2).
    { intros note' Hin. apply Hfound. by right. }
    exists (evs1 ++ evs2). split; [|by apply Forall_app].
    simpl. munfold. rewrite Hrun1, Hrun2. simpl.
    rewrite app_assoc. do 3 f_equal. lia.
Qed.

(** *** The dictionary of remote notes *)

Lemma dict_set_keys (k : string) (v : Note) (d : list (string * Note)) :
  (dict_set k v d).*1 = if bool_decide (k ∈ d.*1) then d.*1 else d.*1 ++ [k].
Proof.
  induction d as [|[k' v'] d IH]; [done|]. cbn [dict_set].
  destruct (decide (k' = k)) as [->|Hne].
  - rewrite bool_decide_eq_true_2 by done. rewrite !fmap_cons. cbn [fst].
    rewrite bool_decide_eq_true_2; [done | left].
  - rewrite bool_decide_eq_false_2 by done. rewrite !fmap_cons, IH. cbn [fst].
    destruct (decide (k ∈ d.*1)) as [Hin|Hnotin].
    + rewrite !bool_decide_eq_true_2; [done | by right | done].
    + rewrite !bool_decide_eq_false_2; [done | | done].
      intros [?|?]%elem_of_cons; [congruence | done].
Qed.

Lemma elem_of_dict_set (k : string) (v : Note) (d : list (string * Note))
    (x : string * Note) :
  x ∈ dict_set k v d → x = (k, v) ∨ x ∈ d.
Proof.
  induction d as [|[k' v'] d IH]; simpl.
  - intros ?%list_elem_of_singleton. by left.
  - case_bool_decide.
    + intros [->|?]%elem_of_cons; [by left | right; by right].
    + intros [->|Hin]%elem_of_cons; [right; left|].
      destruct (IH Hin) as [?|?]; [by left | right; by right].
Qed.

Lemma dict_of_notes_spec (l : list Note) :
  NoDup (dict_of_notes l).*1 ∧
  ∀ k note, (k, note) ∈ dict_of_notes l → k = note_id note ∧ note ∈ l.
Proof.
  unfold dict_of_notes. induction l as [|x l IH] using rev_ind; simpl.
  - split; [constructor | by intros ? ? ?%elem_of_nil].
  - rewrite foldl_snoc. destruct IH as [Hnodup Hin]. split.
    + rewrite dict_set_keys. case_bool_decide; [done|].
      apply NoDup_app. split; [done|]. split; [|apply NoDup_singleton].
      intros k Hk ->%list_elem_of_singleton. done.
    + intros k note [[= -> ->]|Hd]%elem_of_dict_set.
      * split; [done|]. apply elem_of_app. right. left.
      * destruct (Hin k note Hd). split; [done|]. apply elem_of_app. by left.
Qed.

Lemma dict_of_notes_ids (l : list Note) :
  note_id <$> (dict_of_notes l).*2 = (dict_of_notes l).*1.
Proof.
  destruct (dict_of_notes_spec l) as [_ Hin].
  induction (dict_of_notes l) as [|[k note] d IH]; simpl; [done|].
  f_equal.
  - symmetry. apply (Hin k note). left.
  - apply IH. intros k' note' Hd. apply Hin. by right.
Qed.

(** *** Setting up the directories *)

Lemma echo_Ok (m : message) (w w' : world) :
  echo m w = (Ok tt, w') → fs w' = fs w ∧ local_index w' = local_index w.
Proof. munfold. by intros [= <-]. Qed.

Lemma mkdirs_Ok (E : Env) (p : Path) (l : list nat) (w w' : world) :
  for_each l (λ n _, mkdir_exist_ok E (take n p)) tt w = (Ok tt, w') →
  harmless (λ _, True) (fs w) (fs w') ∧ ∀ n, n ∈ l → is_Some (fs w' !! take n p).
Proof.
  revert w. induction l as [|n l IH]; intros w H.
  - injection H as <-. split; [apply harmless_refl | by intros ? ?%elem_of_nil].
  - apply for_each_Ok_cons in H as ([] & w1 & Hmk & H).
    apply mkdir_exist_ok_Ok in Hmk as [Hmk Hdir]. apply IH in H as [Hrest Hl].
    split.
    + eapply harmless_trans; [|done]. by eapply harmless_weaken.
    + intros n' [->|Hin]%elem_of_cons; [|by apply Hl].
      eapply harmless_is_Some; [done|]. by rewrite Hdir.
Qed.

Lemma ensure_directory_Ok (E : Env) (p : Path) (creating : message) (w w' : world) :
  ensure_directory E p creating w = (Ok tt, w') →
  harmless (λ _, True) (fs w) (fs w') ∧ (is_Some (fs w' !! p) ∨ p = []).
Proof.
  unfold ensure_directory, exists_. munfold. case_bool_decide as Hex.
  - intros [= <-]. split; [apply harmless_refl | by left].
  - intros H. apply mkdirs_Ok in H as [Hharm Hl]. simpl in Hharm. split; [done|].
    destruct p as [|x p]; [by right|]. left.
    rewrite <- (firstn_all (x :: p)). apply Hl. apply elem_of_seq. simpl. lia.
Qed.

(** *** Runs that only echo *)

Lemma quiet_bind {A B} (m : M A) (k : A → M B) (w w1 w2 : world) (a : A) (b : B) :
  quiet m w a w1 → quiet (k a) w1 b w2 → quiet (m ≫= k) w b w2.
Proof.
  intros (Hm & Hfs1 & evs1 & Htr1 & Hevs1) (Hk & Hfs2 & evs2 & Htr2 & Hevs2).
  split; [|split].
  - munfold. by rewrite Hm.
  - congruence.
  - exists (evs1 ++ evs2). split; [|by apply Forall_app].
    by rewrite Htr2, Htr1, app_assoc.
Qed.

Lemma quiet_echo (x : message) (w : world) :
  quiet (echo x) w tt (World (fs w) (trace w ++ [Echo x]) (local_index w)).
Proof.
  split; [done|]. split; [done|]. exists [Echo x]. split; [done|]. by repeat constructor.
Qed.

Lemma quiet_ret {A} (a : A) (w : world) : quiet (mret a) w a w.
Proof.
  split; [done|]. split; [done|]. exists []. by rewrite app_nil_r.
Qed.

Lemma quiet_ensure_directory (E : Env) (p : Path) (creating : message) (w : world) :
  is_Some (fs w !! p) ∨ p = [] →
  ∃ w', quiet (ensure_directory E p creating) w tt w' ∧ local_index w' = local_index w.
Proof.
  intros Hp. unfold ensure_directory, exists_.
  destruct (decide (is_Some (fs w !! p))) as [Hex|Hex].
  - exists w. split; [|done]. destruct (quiet_ret tt w) as (_ & ? & ?).
    split; [|done]. munfold. by rewrite bool_decide_eq_true_2.
  - destruct Hp as [?| ->]; [done|].
    eexists. split; [|shelve].
    destruct (quiet_echo creating w) as (_ & ? & ?).
    split; [|done]. munfold. rewrite bool_decide_eq_false_2 by done. simpl. done.
    Unshelve. done.
Qed.

Lemma all_scannable_listing (E : Env) (dir : Path) (m : gmap Path fsnode) :
  rglob_ok E → all_scannable dir m ↔ Forall scannable (listing E dir m).
Proof.
  intros Hok. rewrite Forall_forall. split.
  - intros Hs [p f] Hin. apply elem_of_listing in Hin as [? ?]; [|done]. by apply Hs.
  - intros Hl p f Hf Hbelow. apply Hl. by apply elem_of_listing.
Qed.

Lemma quiet_index_existing_files (E : Env) (dir : Path) (w : world) :
  rglob_ok E → all_scannable dir (fs w) →
  ∃ w', quiet (index_existing_files E dir) w tt w' ∧
        index_matches (listing E dir (fs w)) (local_index w').
Proof.
  intros Hok Hscan. apply (all_scannable_listing E) in Hscan; [|done].
  destruct (index_existing_files_total E dir w) as [w' Hrun].
  { by apply scan_files_scannable. }
  exists w'. apply index_existing_files_Ok in Hrun as Hfacts.
  destruct Hfacts as (? & ? & ?). done.
Qed.

Lemma quiet_delete_disabled (E : Env) (keep_notes : list (string * Note)) (w : world) :
  ∃ w', quiet (delete_local_only_files E keep_notes false) w (0, 0) w' ∧
        local_index w' = local_index w.
Proof.
  destruct (delete_local_only_files_disabled E keep_notes w) as (evs & Hrun & Hevs).
  eexists. split; [|shelve]. split; [exact Hrun|]. split; [done|]. by exists evs.
  Unshelve. done.
Qed.

Lemma quiet_skip_loop (E : Env) (cfg : Config) (dir mediapath : Path) (todo : list Note)
    (c : counters) (w : world) :
  rename_local cfg = false →
  (∀ note, note ∈ todo →
     ∃ local_note, local_index w !! note_id note = Some local_note ∧
                   timestamp_updated local_note = Some (note_updated note)) →
  ∃ w', quiet (for_each todo (process_note E cfg dir mediapath) c) w
          {| skipped_notes := skipped_notes c + length todo;
             updated_notes := updated_notes c; new_notes := new_notes c;
             downloaded_media := downloaded_media c |} w'.
Proof.
  intros Hren Hfound.
  destruct (skip_loop E cfg dir mediapath todo c w Hren Hfound) as (evs & Hrun & Hevs).
  eexists. split; [exact Hrun|]. split; [done|]. by exists evs.
Qed.

(** *** The state a run with header leaves behind *)

Lemma main_settles (E : Env) (cfg : Config) (keep_all : list Note) (w0 w1 : world)
    (s1 : summary) :
  rglob_ok E →
  header cfg = true → rename_local cfg = false → delete_local cfg = false →
  remote_ok E keep_all →
  unique_claims (directory cfg) (fs w0) →
  main E cfg keep_all w0 = (Ok s1, w1) →
  settled (directory cfg) keep_all (fs w1) ∧
  skipped_notes (notes s1) + updated_notes (notes s1) + new_notes (notes s1)
  = length (dict_of_notes keep_all).
Proof.
  intros Hok Hheader Hren Hdel Hremote Hunique H.
  unfold main in H. rewrite Hdel in H. set (dir := directory cfg) in *.
  apply bind_Ok in H as ([] & wa & [Hfa _]%echo_Ok & H).
  apply bind_Ok in H as ([] & wb & [Hfb _]%echo_Ok & H).
  apply bind_Ok in H as ([] & wc & [Hhc Hdir]%ensure_directory_Ok & H).
  apply bind_Ok in H as ([] & wd & [Hhd Hmedia]%ensure_directory_Ok & H).
  apply bind_Ok in H as ([] & we & [Hfe _]%echo_Ok & H).
  apply bind_Ok in H as ([] & wf & Hscan & H).
  apply bind_Ok in H as ([] & wg & [Hfg Hig]%echo_Ok & H).
  apply bind_Ok in H as ([dn dm] & wh & Hdelete & H).
  apply bind_Ok in H as (c & wi & Hloop & H).
  apply bind_Ok in H as ([] & wj & [Hfj _]%echo_Ok & H).
  apply bind_Ok in H as ([] & wk & [Hfk _]%echo_Ok & H).
  apply bind_Ok in H as ([] & wl & [Hfl _]%echo_Ok & H).
  injection H as <- <-. simpl.
  (* the files after the setup *)
  assert (harmless (λ _, True) (fs w0) (fs we)) as Hsetup.
  { rewrite Hfe. eapply harmless_trans; [|exact Hhd]. by rewrite <- Hfa, <- Hfb. }
  destruct Hmedia as [Hmedia|Hmedia];
    [|by apply (f_equal length) in Hmedia; unfold joinpath in Hmedia;
         rewrite length_app in Hmedia; simpl in Hmedia; lia].
  (* the scan *)
  apply index_existing_files_scanned in Hscan as Hscanned.
  destruct Hscanned as (ms & st & Hscanned).
  apply scan_files_Ok_scannable in Hscanned.
  apply (all_scannable_listing E dir (fs we) Hok) in Hscanned.
  apply index_existing_files_Ok in Hscan as (Hff & _ & Hmatches).
  (* the orphan detection does nothing *)
  destruct (delete_local_only_files_disabled E (dict_of_notes keep_all) wg)
    as (evs & Hdelete' & _).
  rewrite Hdelete' in Hdelete. injection Hdelete as <- <- <-.
  (* the loop *)
  destruct (dict_of_notes_spec keep_all) as [Hnodup Hin].
  apply run_loop in Hloop as (Hscan' & Hunique' & Hclaims & _ & Hkeys & Hcount);
    try done; simpl.
  - split; [|simpl in Hcount; rewrite length_fmap in Hcount; lia].
    rewrite Hfl, Hfk, Hfj. split; [|split; [|done]].
    + destruct Hdir as [Hdir|?]; [left|by right]. apply Hkeys. simpl.
      rewrite Hfg, Hff, Hfe. by eapply harmless_is_Some.
    + apply Hkeys. simpl. by rewrite Hfg, Hff, Hfe.
  - by rewrite dict_of_notes_ids.
  - apply Forall_forall. intros note Hnote.
    apply list_elem_of_fmap in Hnote as ([k note'] & -> & Hd).
    apply Hin in Hd as [_ Hd]. unfold remote_ok in Hremote.
    rewrite Forall_forall in Hremote. by apply Hremote.
  - by rewrite Hfg, Hff.
  - rewrite Hfg, Hff. by eapply unique_claims_harmless.
  - intros note _. rewrite Hfg, Hff, Hig. by eapply index_matches_agrees.
Qed.

Lemma settled_run_is_idle (E : Env) (cfg : Config) (keep_all : list Note) (w : world) :
  rglob_ok E → rename_local cfg = false → delete_local cfg = false →
  settled (directory cfg) keep_all (fs w) →
  ∃ w', quiet (main E cfg keep_all) w
          {| notes := {| skipped_notes := length (dict_of_notes keep_all);
                         updated_notes := 0; new_notes := 0; downloaded_media := 0 |};
             deleted_notes := 0; deleted_media := 0 |} w'.
Proof.
  intros Hok Hren Hdel (Hdir & Hmedia & Hscan & Hunique & Hclaims).
  unfold main. rewrite Hdel. set (dir := directory cfg) in *.
  pose proof (quiet_echo (NotesDirectory dir) w) as Ha.
  set (wa := World (fs w) (trace w ++ [Echo (NotesDirectory dir)]) (local_index w)) in *.
  pose proof (quiet_echo (MediaDirectory (joinpath dir "media")) wa) as Hb.
  set (wb := World (fs wa) _ (local_index wa)) in *.
  destruct (quiet_ensure_directory E dir NotesDirectoryCreating wb Hdir) as (wc & Hc & _).
  destruct (quiet_ensure_directory E (joinpath dir "media") MediaDirectoryCreating wc)
    as (wd & Hd & _).
  { left. destruct Hc as (_ & -> & _). done. }
  pose proof (quiet_echo IndexingLocalFiles wd) as He.
  set (we := World (fs wd) _ (local_index wd)) in *.
  assert (fs we = fs w) as Hfe.
  { simpl. destruct Hd as (_ & -> & _), Hc as (_ & -> & _). done. }
  destruct (quiet_index_existing_files E dir we Hok) as (wf & Hf & Hmatches).
  { by rewrite Hfe. }
  rewrite Hfe in Hmatches.
  pose proof (quiet_echo IndexingRemoteNotes wf) as Hg.
  set (wg := World (fs wf) _ (local_index wf)) in *.
  destruct (quiet_delete_disabled E (dict_of_notes keep_all) wg) as (wh & Hh & Hih).
  destruct (quiet_skip_loop E cfg dir (joinpath dir "media") (dict_of_notes keep_all).*2
              {| skipped_notes := 0; updated_notes := 0; new_notes := 0;
                 downloaded_media := 0 |} wh Hren) as (wi & Hi).
  { intros note Hnote. destruct (Hclaims note Hnote) as [p Hp]. rewrite Hih. simpl.
    by eapply index_matches_unchanged. }
  simpl in Hi. rewrite length_fmap in Hi.
  pose proof (quiet_echo FinishedSyncing wi) as Hj.
  set (wj := World (fs wi) _ (local_index wi)) in *.
  pose proof (quiet_echo (NotesSummary (length (dict_of_notes keep_all)) 0 0 0) wj) as Hk.
  set (wk := World (fs wj) _ (local_index wj)) in *.
  pose proof (quiet_echo (MediaSummary 0 0) wk) as Hl.
  set (wl := World (fs wk) _ (local_index wk)) in *.
  exists wl.
  eapply quiet_bind; [exact Ha|]. eapply quiet_bind; [exact Hb|].
  eapply quiet_bind; [exact Hc|]. eapply quiet_bind; [exact Hd|].
  eapply quiet_bind; [exact He|]. eapply quiet_bind; [exact Hf|].
  eapply quiet_bind; [exact Hg|]. eapply quiet_bind; [exact Hh|]. simpl.
  eapply quiet_bind; [exact Hi|]. simpl.
  eapply quiet_bind; [exact Hj|]. eapply quiet_bind; [exact Hk|].
  eapply quiet_bind; [exact Hl|]. apply quiet_ret.
Qed.

(** C1, as amended (idempotency of the sync pass): with the frontmatter
    header enabled and with renaming and deletion disabled, for a remote
    collection whose identifiers are not empty and whose media files are not
    named *.md, starting from an output directory in which no identifier is
    claimed by two note files: when a first run has returned, a second run
    over the same remote collection returns as well, leaves every file as it
    is, does nothing but echo (no write, no rename, no deletion, no media
    request, no directory creation), counts zero updated, new, downloaded
    and deleted, and skips every note: its skipped count is the sum of the
    skipped, updated and new counts of the first run. *)
Theorem second_run_is_idle (E : Env) (cfg : Config) (keep_all : list Note)
    (w0 w1 : world) (s1 : summary) :
  rglob_ok E →
  header cfg = true → rename_local cfg = false → delete_local cfg = false →
  remote_ok E keep_all →
  unique_claims (directory cfg) (fs w0) →
  main E cfg keep_all w0 = (Ok s1, w1) →
  ∃ s2 w2 evs,
    main E cfg keep_all w1 = (Ok s2, w2) ∧
    fs w2 = fs w1 ∧ trace w2 = trace w1 ++ evs ∧ Forall is_echo evs ∧
    skipped_notes (notes s2)
    = skipped_notes (notes s1) + updated_notes (notes s1) + new_notes (notes s1) ∧
    updated_notes (notes s2) = 0 ∧ new_notes (notes s2) = 0 ∧
    downloaded_media (notes s2) = 0 ∧
    deleted_notes s2 = 0 ∧ deleted_media s2 = 0.
Proof.
  intros Hok Hheader Hren Hdel Hremote Hunique Hrun1.
  apply main_settles in Hrun1 as [Hsettled Hcount]; try done.
  destruct (settled_run_is_idle E cfg keep_all w1 Hok Hren Hdel Hsettled)
    as (w2 & Hrun2 & Hfs & evs & Htrace & Hevs).
  eexists _, w2, evs. split; [exact Hrun2|]. simpl. rewrite Hcount. done.
Qed.

Lemma unique_claims_empty (dir : Path) : unique_claims dir ∅.
Proof. intros k p1 p2 u1 u2 (f & Hf & _). by rewrite lookup_empty in Hf. Qed.

Lemma second_run_is_idle_witness :
  let keep_all := [Demo.note "X" "Todo" 20240101 100; Demo.note "Y" "Todo" 20240101 100] in
  let w1 := (main Demo.env (Demo.config true false false) keep_all (World ∅ [] ∅)).2 in
  ∃ s2 w2 evs,
    main Demo.env (Demo.config true false false) keep_all w1 = (Ok s2, w2) ∧
    fs w2 = fs w1 ∧ trace w2 = trace w1 ++ evs ∧ Forall is_echo evs ∧
    skipped_notes (notes s2) = 0 + 0 + 2 ∧
    updated_notes (notes s2) = 0 ∧ new_notes (notes s2) = 0 ∧
    downloaded_media (notes s2) = 0 ∧
    deleted_notes s2 = 0 ∧ deleted_media s2 = 0.
Proof.
  intros keep_all w1.
  apply (second_run_is_idle Demo.env (Demo.config true false false) keep_all
           (World ∅ [] ∅) w1
           {| notes := {| skipped_notes := 0; updated_notes := 0; new_notes := 2;
                          downloaded_media := 0 |};
              deleted_notes := 0; deleted_media := 0 |}).
  - exact demo_rglob_ok.
  - reflexivity.
  - reflexivity.
  - reflexivity.
  - repeat constructor; discriminate.
  - apply unique_claims_empty.
  - reflexivity.
Defined.

(** The claim C1 as the specification states it fails for the configuration
    without header: the file of the first run carries no identifier, so the
    second run takes the note for a new one and writes it again, under a
    dedupe name. *)
Lemma second_run_without_header_writes_again :
  let keep_all := [Demo.note "X" "Todo" 20240101 100] in
  let cfg := Demo.config false false false in
  let r1 := main Demo.env cfg keep_all (World ∅ [] ∅) in
  let r2 := main Demo.env cfg keep_all r1.2 in
  r1.1 = Ok {| notes := {| skipped_notes := 0; updated_notes := 0; new_notes := 1;
                           downloaded_media := 0 |};
               deleted_notes := 0; deleted_media := 0 |} ∧
  r2.1 = Ok {| notes := {| skipped_notes := 0; updated_notes := 0; new_notes := 1;
                           downloaded_media := 0 |};
               deleted_notes := 0; deleted_media := 0 |} ∧
  fs r1.2 !! ["out"; "20240101 - Todo.X.1.md"] = None ∧
  fs r2.2 !! ["out"; "20240101 - Todo.X.1.md"] = Some (Regular true (Plain "Todo")) ∧
  WriteFile ["out"; "20240101 - Todo.X.1.md"] ∈ drop (length (trace r1.2)) (trace r2.2).
Proof.
  repeat split; try reflexivity.
  vm_compute. repeat (first [ by left | right ]).
Qed.

(** *** Why the amended claim keeps its other conditions *)

(** With renaming enabled a second run can still rename: X cannot take its
    canonical name "1 - B.md" in the first run, because Y holds it; Y, which
    comes later, moves away; the second run then renames X. *)
Lemma second_run_with_renaming_renames :
  let keep_all := [Demo.note "X" "B" 1 100; Demo.note "Y" "C" 1 100] in
  let cfg := Demo.config true false true in
  let r1 := main Demo.env cfg keep_all chain_world in
  let r2 := main Demo.env cfg keep_all r1.2 in
  unique_claims ["out"] (fs chain_world) ∧
  skipped_notes <$> (notes <$> match r1.1 with Ok s => Some s | Raise _ => None end)
  = Some 2 ∧
  Rename ["out"; "1 - A.md"] ["out"; "1 - B.md"] ∈ drop (length (trace r1.2)) (trace r2.2).
Proof.
  split; [|split; [reflexivity|]].
  - intros k p1 p2 u1 u2 (f1 & Hf1 & _ & Hc1) (f2 & Hf2 & _ & Hc2).
    unfold chain_world in Hf1, Hf2. simpl in Hf1, Hf2.
    apply lookup_insert_Some in Hf1 as [[<- <-]|[_ Hf1]];
      apply lookup_insert_Some in Hf2 as [[<- <-]|[_ Hf2]]; try done.
    + apply lookup_singleton_Some in Hf2 as [<- <-].
      apply claims_Some in Hc1 as (_ & _ & ? & [= <-] & [= <-] & _).
      by apply claims_Some in Hc2 as (_ & _ & ? & [= <-] & [=] & _).
    + apply lookup_singleton_Some in Hf1 as [<- <-].
      apply claims_Some in Hc1 as (_ & _ & ? & [= <-] & [= <-] & _).
      by apply claims_Some in Hc2 as (_ & _ & ? & [= <-] & [=] & _).
    + apply lookup_singleton_Some in Hf1 as [<- _].
      by apply lookup_singleton_Some in Hf2 as [<- _].
  - vm_compute. repeat (first [ by left | right ]).
Qed.

(** With deletion enabled a second run can delete what the first one
    downloaded: the medium "abc" is stored as abc.jpg, read back as
    "abc.jpg", and removed as local-only. *)
Lemma second_run_with_deletion_deletes :
  let keep_all := [note_with_image "N" "abc"] in
  let cfg := Demo.config true true false in
  let r1 := main Demo.env cfg keep_all (World ∅ [] ∅) in
  let r2 := main Demo.env cfg keep_all r1.2 in
  is_Some (fs r1.2 !! ["out"; "media"; "N"; "abc.jpg"]) ∧
  fs r2.2 !! ["out"; "media"; "N"; "abc.jpg"] = None ∧
  Unlink ["out"; "media"; "N"; "abc.jpg"] ∈ drop (length (trace r1.2)) (trace r2.2).
Proof.
  split; [by eexists|]. split; [reflexivity|].
  vm_compute. repeat (first [ by left | right ]).
Qed.

(** When two note files claim one identifier and the traversal order is
    not the same in both runs, the second run can write: the first run
    updates the file that came last, the second run finds the stale one
    last and updates it. *)
Lemma second_run_with_duplicates_writes :
  let keep_all := [Demo.note "X" "Todo" 20240101 200] in
  let cfg := Demo.config true false false in
  let r1 := main unstable_env cfg keep_all duplicate_world in
  let r2 := main unstable_env cfg keep_all r1.2 in
  rglob_ok unstable_env ∧
  (∃ p, WriteFile p ∈ trace r1.2) ∧
  (∃ p, WriteFile p ∈ drop (length (trace r1.2)) (trace r2.2)).
Proof.
  split; [|split].
  - intros root m. destruct (demo_rglob_ok root m) as [Hnodup Hin]. simpl in *.
    destruct (existsb recorded_200 (map_to_list m).*2).
    + split; [by rewrite reverse_Permutation|]. intros p. by rewrite elem_of_reverse.
    + done.
  - eexists. vm_compute. repeat (first [ by left | right ]).
  - eexists. vm_compute. repeat (first [ by left | right ]).
Qed.

